(** * jaq: the input-transform engine ([transform/transform.go])

    A shallow embedding of package [transform] of Ericsson/jaq, of the
    parts of the Go libraries it calls and of its caller [execute]
    ([cmd/root.go]), followed by the properties of the engine.

    Conventions.
    - A Go [string] is a sequence of bytes: Rocq's [string] of [ascii].
      Lengths and slices count bytes, as [len(s)] and [s[:n]] do.
    - A Go [int] is a [Z] (64-bit platform; only [strconv.Atoi] can produce
      an [int] that is not a length, and its range check is modelled).
    - A Go function that may return an error, exit the process
      ([log.Fatalf]) or panic returns a [result].
    - The library functions are modelled after their sources: the Go
      standard library as of Go 1.22 ([os.Expand], [strconv.Atoi],
      [encoding/json], [bufio.Scanner], [unicode/utf8], [fmt]) and gabs v1
      ([ParseJSON], [Path], [Data]). Floating point and the Unicode tables
      behind [strconv.Quote] are parameters ([Runtime]).
    - Loops of the libraries that are not structural run on fuel; the
      lemmas named [..._fuel] show that the fuel they are given is enough,
      and [readData_total] that the loop of [readData] ends. *)

From Stdlib Require Import String Ascii List ZArith NArith Bool Arith Lia.
Import ListNotations.
Local Open Scope list_scope.
Local Open Scope string_scope.

Set Implicit Arguments.
Set Warnings "-register-all".

(** ** Outcomes of a Go call *)

(** The errors [readData] can hand back to its caller. *)
Inductive error : Type :=
| InvalidPipedData
    (* errors.New("invalid piped data") *)
| UnexpectedType (ty : string) (rendering : string)
    (* fmt.Errorf("unexpected type (%T): %v", raw, truncatedValue(raw)) *)
| UnexpectedEOF
    (* io.ErrUnexpectedEOF, from Decoder.Decode *)
| UnmarshalTypeError (literal : string)
    (* *json.UnmarshalTypeError: a number that does not fit a float64 *)
| ReadError (msg : string).
    (* an error of the underlying io.Reader *)

Inductive result (A : Type) : Type :=
| Ok (a : A)              (* normal return; for (v, error) returns: (v, nil) *)
| Err (e : error)         (* return nil, err *)
| Fatal (msg : string)    (* log.Fatalf: message logged, os.Exit(1) *)
| Panic (msg : string).   (* run-time panic unwinding the goroutine *)

Arguments Ok {A} a.
Arguments Err {A} e.
Arguments Fatal {A} msg.
Arguments Panic {A} msg.

Definition bind {A B : Type} (r : result A) (k : A -> result B) : result B :=
  match r with
  | Ok a => k a
  | Err e => Err e
  | Fatal m => Fatal m
  | Panic m => Panic m
  end.

Notation "x <- r ;; k" := (bind r (fun x => k))
  (at level 61, r at next level, right associativity).

(** [mapM f l]: a Go loop that evaluates [f] on the elements of [l] in order
    and stops at the first one that does not return normally. *)
Fixpoint mapM {A B : Type} (f : A -> result B) (l : list A) : result (list B) :=
  match l with
  | [] => Ok []
  | a :: l' => b <- f a ;; bs <- mapM f l' ;; Ok (b :: bs)
  end.

(** A call that returns normally or panics: it returns no error and does
    not end the process. *)
Definition returns_or_panics {A : Type} (r : result A) : Prop :=
  match r with
  | Ok _ | Panic _ => True
  | Err _ | Fatal _ => False
  end.

(** ** Bytes and strings *)

Definition byte_of (c : ascii) : N := N_of_ascii c.
Definition chr (n : N) : ascii := ascii_of_N n.

Definition in_range (lo hi : N) (c : ascii) : bool :=
  (lo <=? byte_of c)%N && (byte_of c <=? hi)%N.

Definition isDigit (c : ascii) : bool := in_range 48 57 c.

(** [s[n:]] *)
Fixpoint drop (n : nat) (s : string) : string :=
  match n, s with
  | O, _ => s
  | S n', String _ s' => drop n' s'
  | S _, EmptyString => EmptyString
  end.

(** [s[:n]] *)
Fixpoint take (n : nat) (s : string) : string :=
  match n, s with
  | O, _ => EmptyString
  | S n', String c s' => String c (take n' s')
  | S _, EmptyString => EmptyString
  end.

(** Index of the first occurrence of byte [c] in [s]
    ([strings.IndexByte]). *)
Fixpoint indexByte (c : ascii) (s : string) : option nat :=
  match s with
  | EmptyString => None
  | String d s' =>
      if Ascii.eqb c d then Some O
      else match indexByte c s' with Some i => Some (S i) | None => None end
  end.

Fixpoint repeat_byte (c : ascii) (n : nat) : string :=
  match n with O => EmptyString | S n' => String c (repeat_byte c n') end.

Fixpoint concat_with (sep : string) (l : list string) : string :=
  match l with
  | [] => ""
  | [x] => x
  | x :: l' => x ++ sep ++ concat_with sep l'
  end.

(** The double quote, and JSON text written with single quotes:
    [js "{'c':'d'}"] is the nine bytes of the Go literal [`{"c":"d"}`]. *)
Definition dquote : ascii := chr 34.

Fixpoint js (s : string) : string :=
  match s with
  | EmptyString => EmptyString
  | String c s' => String (if Ascii.eqb c "'" then dquote else c) (js s')
  end.

(** ** [strconv.Atoi] and [strings.SplitN] *)

Module strconv.

Fixpoint digits_value (acc : Z) (s : string) : option Z :=
  match s with
  | EmptyString => Some acc
  | String c s' =>
      if isDigit c
      then digits_value (acc * 10 + (Z.of_N (byte_of c) - 48))%Z s'
      else None
  end.

(** Decimal digits, at least one. *)
Definition parse_digits (s : string) : option Z :=
  match s with
  | EmptyString => None
  | _ => digits_value 0%Z s
  end.

Definition minInt : Z := (- 2 ^ 63)%Z.
Definition maxInt : Z := (2 ^ 63 - 1)%Z.

(** [strconv.Atoi]: an optional sign, then decimal digits; [None] is a
    non-nil error (syntax, or a value out of the range of [int]). *)
Definition Atoi (s : string) : option Z :=
  let '(neg, body) :=
    match s with
    | String "-" s' => (true, s')
    | String "+" s' => (false, s')
    | _ => (false, s)
    end in
  match parse_digits body with
  | None => None
  | Some n =>
      let v := if neg then (- n)%Z else n in
      if ((minInt <=? v) && (v <=? maxInt))%Z then Some v else None
  end.

End strconv.

Module strings.

(** [strings.SplitN(s, sep, 2)] for a one-byte separator: [[s]] when the
    separator does not occur, else the text before and after its first
    occurrence. *)
Definition SplitN2 (s : string) (sep : ascii) : list string :=
  match indexByte sep s with
  | None => [s]
  | Some i => [take i s; drop (S i) s]
  end.

(** [strings.Split(s, sep)] for a one-byte separator: always non-empty. *)
Fixpoint Split_from (cur : string) (s : string) (sep : ascii) : list string :=
  match s with
  | EmptyString => [cur]
  | String c s' =>
      if Ascii.eqb c sep then cur :: Split_from "" s' sep
      else Split_from (cur ++ String c "") s' sep
  end.

Definition Split (s : string) (sep : ascii) : list string :=
  Split_from "" s sep.

End strings.

(** ** [os.Expand] *)

Module os.

Definition isShellSpecialVar (c : ascii) : bool :=
  existsb (Ascii.eqb c)
    ["*"; "#"; "$"; "@"; "!"; "?"; "-";
     "0"; "1"; "2"; "3"; "4"; "5"; "6"; "7"; "8"; "9"]%char.

Definition isAlphaNum (c : ascii) : bool :=
  Ascii.eqb c "_" || in_range 48 57 c || in_range 97 122 c || in_range 65 90 c.

Fixpoint alnum_prefix (s : string) : nat :=
  match s with
  | String c s' => if isAlphaNum c then S (alnum_prefix s') else O
  | EmptyString => O
  end.

(** The scan to the closing brace in [getShellName]; [tl] is [s[1:]]. *)
Definition scan_brace (tl : string) : string * nat :=
  match indexByte "}" tl with
  | Some O => ("", 2)                     (* bad syntax; eat "${}" *)
  | Some i => (take i tl, i + 2)
  | None => ("", 1)                       (* bad syntax; eat "${" *)
  end.

(** [getShellName s], for non-empty [s]: the name that begins [s] and the
    number of bytes consumed to extract it. *)
Definition getShellName (s : string) : string * nat :=
  match s with
  | String "{" tl =>
      match tl with
      | String c1 (String "}" _) =>
          if isShellSpecialVar c1 then (String c1 "", 3) else scan_brace tl
      | _ => scan_brace tl
      end
  | String c _ =>
      if isShellSpecialVar c then (String c "", 1)
      else let i := alnum_prefix s in (take i s, i)
  | EmptyString => ("", 0)
  end.

(** [Expand s mapping]: the loop over [j]; [fuel] bounds the number of
    iterations by the length of the text. A panic of [mapping] unwinds
    through [Expand]. *)
Fixpoint Expand_loop (fuel : nat) (s : string)
         (mapping : string -> result string) : result string :=
  match fuel with
  | O => Ok s
  | S fuel' =>
      match s with
      | EmptyString => Ok ""
      | String c tl =>
          if Ascii.eqb c "$" && negb (String.eqb tl "") then
            let '(name, w) := getShellName tl in
            let rest := drop w tl in
            if String.eqb name "" then
              if (0 <? w)%nat then
                (* invalid syntax; eat the characters *)
                Expand_loop fuel' rest mapping
              else
                (* "$" not followed by a name: left untouched *)
                r <- Expand_loop fuel' rest mapping ;; Ok (String "$" r)
            else
              v <- mapping name ;;
              r <- Expand_loop fuel' rest mapping ;;
              Ok (v ++ r)
          else
            r <- Expand_loop fuel' tl mapping ;; Ok (String c r)
      end
  end.

Definition Expand (s : string) (mapping : string -> result string)
  : result string :=
  Expand_loop (String.length s) s mapping.

End os.

(** ** [unicode/utf8] *)

Module utf8.

Definition RuneError : N := 65533.      (* U+FFFD *)

Definition cont (lo hi : N) (s : string) : option (N * string) :=
  match s with
  | String c s' =>
      let b := byte_of c in
      if ((lo <=? b) && (b <=? hi))%N then Some (N.land b 63, s') else None
  | EmptyString => None
  end.

(** Size and accept range of the second byte, from the first byte
    (the tables [first] and [acceptRanges]); [None]: invalid first byte. *)
Definition first (b : N) : option (nat * N * N) :=
  if (b <? 194)%N then None                                (* 80..C1: xx *)
  else if (b <=? 223)%N then Some (2%nat, 128, 191)%N      (* C2..DF *)
  else if (b =? 224)%N then Some (3%nat, 160, 191)%N       (* E0 *)
  else if (b <=? 236)%N then Some (3%nat, 128, 191)%N      (* E1..EC *)
  else if (b =? 237)%N then Some (3%nat, 128, 159)%N       (* ED *)
  else if (b <=? 239)%N then Some (3%nat, 128, 191)%N      (* EE..EF *)
  else if (b =? 240)%N then Some (4%nat, 144, 191)%N       (* F0 *)
  else if (b <=? 243)%N then Some (4%nat, 128, 191)%N      (* F1..F3 *)
  else if (b =? 244)%N then Some (4%nat, 128, 143)%N       (* F4 *)
  else None.                                               (* F5..FF *)

(** [utf8.DecodeRune]: the first rune of [s] and its width in bytes;
    [(RuneError, 1)] for an invalid or truncated encoding and
    [(RuneError, 0)] for the empty string. *)
Definition DecodeRune (s : string) : N * nat :=
  match s with
  | EmptyString => (RuneError, 0%nat)
  | String c0 s1 =>
      let p0 := byte_of c0 in
      if (p0 <? 128)%N then (p0, 1%nat)
      else
        match first p0 with
        | None => (RuneError, 1%nat)
        | Some (sz, lo, hi) =>
            match cont lo hi s1 with
            | None => (RuneError, 1%nat)
            | Some (b1, s2) =>
                if (sz <=? 2)%nat
                then (N.land p0 31 * 64 + b1, 2%nat)%N
                else
                  match cont 128 191 s2 with
                  | None => (RuneError, 1%nat)
                  | Some (b2, s3) =>
                      if (sz <=? 3)%nat
                      then (N.land p0 15 * 4096 + b1 * 64 + b2, 3%nat)%N
                      else
                        match cont 128 191 s3 with
                        | None => (RuneError, 1%nat)
                        | Some (b3, _) =>
                            (N.land p0 7 * 262144 + b1 * 4096 + b2 * 64 + b3,
                             4%nat)%N
                        end
                  end
            end
        end
  end.

Definition surrogate (r : N) : bool := ((55296 <=? r) && (r <=? 57343))%N.

(** [utf8.EncodeRune] (as [utf8.AppendRune] to the empty string). *)
Definition EncodeRune (r : N) : string :=
  let r := if (1114111 <? r)%N || surrogate r then RuneError else r in
  if (r <? 128)%N then String (chr r) ""
  else if (r <? 2048)%N then
    String (chr (192 + r / 64)) (String (chr (128 + N.land r 63)) "")
  else if (r <? 65536)%N then
    String (chr (224 + r / 4096))
      (String (chr (128 + N.land (r / 64) 63))
         (String (chr (128 + N.land r 63)) ""))
  else
    String (chr (240 + r / 262144))
      (String (chr (128 + N.land (r / 4096) 63))
         (String (chr (128 + N.land (r / 64) 63))
            (String (chr (128 + N.land r 63)) ""))).

(** [utf8.RuneCountInString]: the number of runes of [s], as a [range]
    over the string counts them; a byte that begins no valid encoding is
    one rune. *)
Fixpoint count_runes (fuel : nat) (s : string) : nat :=
  match fuel with
  | O => 0%nat
  | S fuel' =>
      match s with
      | EmptyString => 0%nat
      | String _ _ => S (count_runes fuel' (drop (snd (DecodeRune s)) s))
      end
  end.

Definition RuneCountInString (s : string) : nat :=
  count_runes (String.length s) s.

End utf8.

(** Hexadecimal digits. *)
Definition hex_value (c : ascii) : option N :=
  let b := byte_of c in
  if in_range 48 57 c then Some (b - 48)%N
  else if in_range 97 102 c then Some (b - 87)%N
  else if in_range 65 70 c then Some (b - 55)%N
  else None.

Definition hex_digit (n : N) : ascii :=
  if (n <? 10)%N then chr (48 + n) else chr (87 + n).

(** ** [encoding/json]: syntax *)

Module json.

(** A JSON text as the scanner sees it: numbers are still literals, object
    members are in source order, strings are already unquoted. *)
Inductive raw : Type :=
| RNull
| RBool (b : bool)
| RNumber (lit : string)
| RString (s : string)
| RArray (l : list raw)
| RObject (members : list (string * raw)).

Inductive parsed (A : Type) : Type :=
| PDone (a : A) (rest : string)   (* [a] read; [rest] follows it *)
| PMore                           (* the buffer ends inside the value *)
| PSyntax.                        (* *json.SyntaxError *)
Arguments PDone {A} a rest.
Arguments PMore {A}.
Arguments PSyntax {A}.

(** [isSpace] of the scanner. *)
Definition isSpace (c : ascii) : bool :=
  let b := byte_of c in
  ((b =? 32) || (b =? 9) || (b =? 13) || (b =? 10))%N.

Fixpoint skip_space (s : string) : string :=
  match s with
  | String c s' => if isSpace c then skip_space s' else s
  | EmptyString => s
  end.

(** *** String literals *)

Definition simple_escape (c : ascii) : option ascii :=
  if Ascii.eqb c dquote then Some dquote
  else match c with
       | "\"%char => Some "\"%char
       | "/"%char => Some "/"%char
       | "b"%char => Some (chr 8)
       | "f"%char => Some (chr 12)
       | "n"%char => Some (chr 10)
       | "r"%char => Some (chr 13)
       | "t"%char => Some (chr 9)
       | _ => None
       end.

(** [scan_string s], [s] the text after the opening quote: the bytes of
    the literal up to its closing quote, as the scanner accepts them
    ([stateInString], [stateInStringEsc], [stateInStringEscU...]). *)
Fixpoint scan_string (s : string) : parsed string :=
  match s with
  | EmptyString => PMore
  | String c s1 =>
      if Ascii.eqb c dquote then PDone "" s1
      else if Ascii.eqb c "\" then
        match s1 with
        | EmptyString => PMore
        | String e s2 =>
            if Ascii.eqb e "u" then
              match s2 with
              | String h1 (String h2 (String h3 (String h4 s3))) =>
                  match hex_value h1, hex_value h2, hex_value h3, hex_value h4 with
                  | Some _, Some _, Some _, Some _ =>
                      match scan_string s3 with
                      | PDone body rest =>
                          PDone (String c (String e (String h1 (String h2
                                   (String h3 (String h4 body)))))) rest
                      | PMore => PMore
                      | PSyntax => PSyntax
                      end
                  | _, _, _, _ => PSyntax
                  end
              | _ =>
                  (* fewer than four bytes left: all hexadecimal so far? *)
                  if forallb (fun h => match hex_value h with
                                       | Some _ => true | None => false end)
                       (list_ascii_of_string s2)
                  then PMore else PSyntax
              end
            else
              match simple_escape e with
              | None => PSyntax
              | Some _ =>
                  match scan_string s2 with
                  | PDone body rest => PDone (String c (String e body)) rest
                  | PMore => PMore
                  | PSyntax => PSyntax
                  end
              end
        end
      else if (byte_of c <? 32)%N then PSyntax
      else
        match scan_string s1 with
        | PDone body rest => PDone (String c body) rest
        | PMore => PMore
        | PSyntax => PSyntax
        end
  end.

Definition getu4 (h1 h2 h3 h4 : ascii) : option N :=
  match hex_value h1, hex_value h2, hex_value h3, hex_value h4 with
  | Some a, Some b, Some c, Some d => Some (a * 4096 + b * 256 + c * 16 + d)%N
  | _, _, _, _ => None
  end.

(** [utf16.DecodeRune]: a surrogate pair, or U+FFFD. *)
Definition utf16_DecodeRune (r1 r2 : N) : N :=
  if ((55296 <=? r1) && (r1 <? 56320) && (56320 <=? r2) && (r2 <? 57344))%N
  then ((r1 - 55296) * 1024 + (r2 - 56320) + 65536)%N
  else utf8.RuneError.

(** A [\uXXXX] escape at the head of [s]: its value and what follows. *)
Definition escape_u (s : string) : option (N * string) :=
  match s with
  | String b (String u (String h1 (String h2 (String h3 (String h4 s'))))) =>
      if Ascii.eqb b "\" && Ascii.eqb u "u" then
        match getu4 h1 h2 h3 h4 with
        | Some r => Some (r, s')
        | None => None
        end
      else None
  | _ => None
  end.

(** [unquote]: the bytes a scanned literal denotes. Escapes are replaced,
    invalid UTF-8 becomes U+FFFD, unpaired surrogates become U+FFFD. *)
Fixpoint unquote_loop (fuel : nat) (s : string) : string :=
  match fuel with
  | O => ""
  | S fuel' =>
      match s with
      | EmptyString => ""
      | String c s1 =>
          if Ascii.eqb c "\" then
            match escape_u s with
            | Some (rr, s') =>
                if utf8.surrogate rr then
                  match escape_u s' with
                  | Some (rr1, s'') =>
                      let dec := utf16_DecodeRune rr rr1 in
                      if (dec =? utf8.RuneError)%N
                      then utf8.EncodeRune utf8.RuneError ++ unquote_loop fuel' s'
                      else utf8.EncodeRune dec ++ unquote_loop fuel' s''
                  | None =>
                      utf8.EncodeRune utf8.RuneError ++ unquote_loop fuel' s'
                  end
                else utf8.EncodeRune rr ++ unquote_loop fuel' s'
            | None =>
                match s1 with
                | EmptyString => ""
                | String e s2 =>
                    match simple_escape e with
                    | Some b => String b (unquote_loop fuel' s2)
                    | None => ""
                    end
                end
            end
          else if (byte_of c <? 128)%N then String c (unquote_loop fuel' s1)
          else
            let '(rr, size) := utf8.DecodeRune s in
            utf8.EncodeRune rr ++ unquote_loop fuel' (drop size s)
      end
  end.

Definition unquote (body : string) : string :=
  unquote_loop (String.length body) body.

(** *** Number literals: the scanner states [stateNeg] ... [stateE0] *)

Inductive nstate : Type := SNeg | S0 | S1 | SDot | SDot0 | SE | SESign | SE0.

Inductive nstep_result : Type :=
| NGo (st : nstate)    (* the byte belongs to the literal *)
| NEnd                 (* the literal ended before this byte *)
| NBad.                (* syntax error *)

Definition is_e (c : ascii) : bool := Ascii.eqb c "e" || Ascii.eqb c "E".

Definition nstep (st : nstate) (c : ascii) : nstep_result :=
  match st with
  | SNeg => if Ascii.eqb c "0" then NGo S0
            else if in_range 49 57 c then NGo S1 else NBad
  | S1 => if isDigit c then NGo S1
          else if Ascii.eqb c "." then NGo SDot
          else if is_e c then NGo SE else NEnd
  | S0 => if Ascii.eqb c "." then NGo SDot
          else if is_e c then NGo SE else NEnd
  | SDot => if isDigit c then NGo SDot0 else NBad
  | SDot0 => if isDigit c then NGo SDot0
             else if is_e c then NGo SE else NEnd
  | SE => if Ascii.eqb c "+" || Ascii.eqb c "-" then NGo SESign
          else if isDigit c then NGo SE0 else NBad
  | SESign => if isDigit c then NGo SE0 else NBad
  | SE0 => if isDigit c then NGo SE0 else NEnd
  end.

Definition may_end (st : nstate) : bool :=
  match st with S0 | S1 | SDot0 | SE0 => true | _ => false end.

(** The rest of a number literal from state [st]. At the end of the buffer
    a literal that may end there is returned with an empty rest. *)
Fixpoint scan_number (st : nstate) (s : string) : parsed string :=
  match s with
  | EmptyString => if may_end st then PDone "" "" else PMore
  | String c s' =>
      match nstep st c with
      | NGo st' =>
          match scan_number st' s' with
          | PDone lit rest => PDone (String c lit) rest
          | PMore => PMore
          | PSyntax => PSyntax
          end
      | NEnd => PDone "" s
      | NBad => PSyntax
      end
  end.

(** The rest of the literals [true], [false], [null]. *)
Fixpoint scan_literal (expect : string) (s : string) : parsed unit :=
  match expect with
  | EmptyString => PDone tt s
  | String e expect' =>
      match s with
      | EmptyString => PMore
      | String c s' =>
          if Ascii.eqb c e then scan_literal expect' s' else PSyntax
      end
  end.

(** *** Values *)

Definition maxNestingDepth : N := 10000.

Definition is_container (v : raw) : bool :=
  match v with RArray _ | RObject _ => true | _ => false end.

(** One JSON value at the head of [s], after optional white space
    ([stateBeginValue] and the states it leads to). [depth] is the number
    of enclosing arrays and objects; [fuel] bounds the number of calls,
    two for each byte of [s] are enough. *)
Fixpoint parse_value (fuel : nat) (depth : N) (s : string) : parsed raw :=
  match fuel with
  | O => PSyntax
  | S fuel' =>
      match skip_space s with
      | EmptyString => PMore
      | String c tl =>
          if Ascii.eqb c "{" then
            if (maxNestingDepth <=? depth)%N then PSyntax
            else
              match skip_space tl with
              | EmptyString => PMore
              | String c' rest as body =>
                  if Ascii.eqb c' "}" then PDone (RObject []) rest
                  else parse_members fuel' (N.succ depth) body []
              end
          else if Ascii.eqb c "[" then
            if (maxNestingDepth <=? depth)%N then PSyntax
            else
              match skip_space tl with
              | EmptyString => PMore
              | String c' rest as body =>
                  if Ascii.eqb c' "]" then PDone (RArray []) rest
                  else parse_elements fuel' (N.succ depth) body []
              end
          else if Ascii.eqb c dquote then
            match scan_string tl with
            | PDone body rest => PDone (RString (unquote body)) rest
            | PMore => PMore
            | PSyntax => PSyntax
            end
          else if Ascii.eqb c "-" then
            match scan_number SNeg tl with
            | PDone lit rest => PDone (RNumber (String c lit)) rest
            | PMore => PMore
            | PSyntax => PSyntax
            end
          else if Ascii.eqb c "0" then
            match scan_number S0 tl with
            | PDone lit rest => PDone (RNumber (String c lit)) rest
            | PMore => PMore
            | PSyntax => PSyntax
            end
          else if in_range 49 57 c then
            match scan_number S1 tl with
            | PDone lit rest => PDone (RNumber (String c lit)) rest
            | PMore => PMore
            | PSyntax => PSyntax
            end
          else if Ascii.eqb c "t" then
            match scan_literal "rue" tl with
            | PDone _ rest => PDone (RBool true) rest
            | PMore => PMore
            | PSyntax => PSyntax
            end
          else if Ascii.eqb c "f" then
            match scan_literal "alse" tl with
            | PDone _ rest => PDone (RBool false) rest
            | PMore => PMore
            | PSyntax => PSyntax
            end
          else if Ascii.eqb c "n" then
            match scan_literal "ull" tl with
            | PDone _ rest => PDone RNull rest
            | PMore => PMore
            | PSyntax => PSyntax
            end
          else PSyntax
      end
  end

(** The elements of an array, from the first byte of an element on;
    [acc] holds the elements read so far, last first. *)
with parse_elements (fuel : nat) (depth : N) (s : string) (acc : list raw)
  : parsed raw :=
  match fuel with
  | O => PSyntax
  | S fuel' =>
      match parse_value fuel' depth s with
      | PDone v rest =>
          match skip_space rest with
          | EmptyString => PMore
          | String c rest' =>
              if Ascii.eqb c "," then parse_elements fuel' depth rest' (v :: acc)
              else if Ascii.eqb c "]" then PDone (RArray (rev (v :: acc))) rest'
              else PSyntax
          end
      | PMore => PMore
      | PSyntax => PSyntax
      end
  end

(** The members of an object, from the first byte of a key on. *)
with parse_members (fuel : nat) (depth : N) (s : string)
                   (acc : list (string * raw)) : parsed raw :=
  match fuel with
  | O => PSyntax
  | S fuel' =>
      match skip_space s with
      | EmptyString => PMore
      | String c tl =>
          if negb (Ascii.eqb c dquote) then PSyntax
          else
            match scan_string tl with
            | PDone key rest =>
                match skip_space rest with
                | EmptyString => PMore
                | String c' rest' =>
                    if negb (Ascii.eqb c' ":") then PSyntax
                    else
                      match parse_value fuel' depth rest' with
                      | PDone v rest'' =>
                          let acc' := (unquote key, v) :: acc in
                          match skip_space rest'' with
                          | EmptyString => PMore
                          | String c'' r =>
                              if Ascii.eqb c'' ","
                              then parse_members fuel' depth r acc'
                              else if Ascii.eqb c'' "}"
                              then PDone (RObject (rev acc')) r
                              else PSyntax
                          end
                      | PMore => PMore
                      | PSyntax => PSyntax
                      end
                end
            | PMore => PMore
            | PSyntax => PSyntax
            end
      end
  end.

(** The scanner run on a buffer that starts a top-level value. *)
Definition scan (buf : string) : parsed raw :=
  parse_value (2 * String.length buf + 2) 0 buf.

(** [json.Unmarshal] accepts exactly one value, white space around it. *)
Definition parse_document (data : string) : option raw :=
  match scan data with
  | PDone v rest =>
      match skip_space rest with EmptyString => Some v | _ => None end
  | _ => None
  end.

End json.

(** ** [bufio.Scanner] with [bufio.ScanWords] *)

Module bufio.

Definition MaxScanTokenSize : nat := 64 * 1024.

Definition ErrTooLong : string := "bufio.Scanner: token too long".

Definition isSpace (r : N) : bool :=
  if (r <=? 255)%N then
    ((r =? 32) || ((9 <=? r) && (r <=? 13)) || (r =? 133) || (r =? 160))%N
  else if ((8192 <=? r) && (r <=? 8202))%N then true
  else ((r =? 5760) || (r =? 8232) || (r =? 8233) || (r =? 8239)
        || (r =? 8287) || (r =? 12288))%N.

(** The first loop of [ScanWords]: skip leading spaces. *)
Fixpoint skip_leading (fuel : nat) (s : string) : string :=
  match fuel with
  | O => s
  | S fuel' =>
      match s with
      | EmptyString => s
      | _ =>
          let '(r, width) := utf8.DecodeRune s in
          if isSpace r then skip_leading fuel' (drop width s) else s
      end
  end.

(** The second loop of [ScanWords] on the window [s]: the index [i] of
    the first space and [i + width]. *)
Fixpoint find_space (fuel : nat) (i : nat) (s : string) : option (nat * nat) :=
  match fuel with
  | O => None
  | S fuel' =>
      match s with
      | EmptyString => None
      | _ =>
          let '(r, width) := utf8.DecodeRune s in
          if isSpace r then Some (i, (width + i)%nat)
          else find_space fuel' (width + i)%nat (drop width s)
      end
  end.

(** [for scanner.Scan() { ... scanner.Text() ... }] followed by
    [scanner.Err()], on a reader that holds [data] and never fails:
    the tokens in order, and the error. The scanner looks for the end of
    a word in a window of at most [MaxScanTokenSize] bytes; a window
    that is full and holds no end of word is [ErrTooLong]. *)
Fixpoint scan_words (fuel : nat) (data : string) : list string * option string :=
  match fuel with
  | O => ([], None)
  | S fuel' =>
      let w := skip_leading (String.length data) data in
      match w with
      | EmptyString => ([], None)
      | _ =>
          let window := take MaxScanTokenSize w in
          match find_space (String.length window) 0 window with
          | Some (i, next) =>
              let '(toks, err) := scan_words fuel' (drop next w) in
              (take i w :: toks, err)
          | None =>
              if (String.length w <? MaxScanTokenSize)%nat
              then ([w], None)
              else ([], Some ErrTooLong)
          end
      end
  end.

Definition ScanWords (data : string) : list string * option string :=
  scan_words (String.length data) data.

End bufio.

(** ** What is left abstract of the Go runtime

    [float64] and its conversions ([strconv.ParseFloat], the [%v] verb of
    [fmt], the float encoder of [encoding/json]) and [strconv.Quote] (the
    [%q] verb, which consults the Unicode tables). *)

Class Runtime : Type := {
  float64 : Type;
  ParseFloat : string -> option float64;   (* [None]: value out of range *)
  FormatFloat : float64 -> string;         (* fmt.Sprint(f) *)
  MarshalFloat : float64 -> string;        (* json.Marshal(f) *)
  Quote : string -> string                 (* strconv.Quote(s) *)
}.

Section Engine.

Context {rt : Runtime}.

(** ** Decoded values: what [Decode] stores into an [interface{}] *)

Inductive value : Type :=
| Nil                                   (* nil *)
| Bool (b : bool)                       (* bool *)
| Float (f : float64)                   (* float64 *)
| Str (s : string)                      (* string *)
| Array (l : list value)                (* []interface{} *)
| Map (m : list (string * value)).      (* map[string]interface{} *)

(** A Go map holds one value for each key and has no order of its own;
    [encoding/json] and [fmt] both visit it by increasing key, so a map is
    kept as a list with distinct keys in increasing (bytewise) order. *)
Fixpoint map_insert (k : string) (v : value) (m : list (string * value))
  : list (string * value) :=
  match m with
  | [] => [(k, v)]
  | (k', v') :: m' =>
      match String.compare k k' with
      | Lt => (k, v) :: m
      | Eq => (k, v) :: m'
      | Gt => (k', v') :: map_insert k v m'
      end
  end.

Fixpoint map_lookup (k : string) (m : list (string * value)) : option value :=
  match m with
  | [] => None
  | (k', v') :: m' => if String.eqb k k' then Some v' else map_lookup k m'
  end.

(** The decoding of a scanned text into an [interface{}]; [inr lit] when
    the number literal [lit] does not fit a [float64] (the decoder saves
    the first such error and returns it once the text is decoded). *)
Fixpoint interp (r : json.raw) : value + string :=
  match r with
  | json.RNull => inl Nil
  | json.RBool b => inl (Bool b)
  | json.RNumber lit =>
      match ParseFloat lit with
      | Some f => inl (Float f)
      | None => inr lit
      end
  | json.RString s => inl (Str s)
  | json.RArray l =>
      match (fix elements (l : list json.raw) : list value + string :=
               match l with
               | [] => inl []
               | x :: xs =>
                   match interp x, elements xs with
                   | inl v, inl vs => inl (v :: vs)
                   | inr lit, _ => inr lit
                   | inl _, inr lit => inr lit
                   end
               end) l with
      | inl l' => inl (Array l')
      | inr lit => inr lit
      end
  | json.RObject members =>
      match (fix fields (l : list (string * json.raw))
               : list (string * value) + string :=
               match l with
               | [] => inl []
               | (k, x) :: xs =>
                   match interp x, fields xs with
                   | inl v, inl kvs => inl ((k, v) :: kvs)
                   | inr lit, _ => inr lit
                   | inl _, inr lit => inr lit
                   end
               end) members with
      | inl kvs =>
          (* the members are stored one after the other: the last value
             given for a key stays *)
          inl (Map (fold_left (fun m kv => map_insert (fst kv) (snd kv) m) kvs []))
      | inr lit => inr lit
      end
  end.

(** *** [json.Marshal] of a decoded value *)

Definition hex4 (b : N) : string :=
  String "\" (String "u" (String "0" (String "0"
    (String (hex_digit (b / 16)) (String (hex_digit (N.land b 15)) ""))))).

(** The string encoder, with HTML escaping as [json.Marshal] has it. *)
Fixpoint marshal_string_loop (fuel : nat) (s : string) : string :=
  match fuel with
  | O => ""
  | S fuel' =>
      match s with
      | EmptyString => ""
      | String c s' =>
          let b := byte_of c in
          if (b <? 128)%N then
            (if Ascii.eqb c dquote || Ascii.eqb c "\" then String "\" (String c "")
             else if (b =? 8)%N then "\b"
             else if (b =? 12)%N then "\f"
             else if (b =? 10)%N then "\n"
             else if (b =? 13)%N then "\r"
             else if (b =? 9)%N then "\t"
             else if (b <? 32)%N || Ascii.eqb c "<" || Ascii.eqb c ">"
                     || Ascii.eqb c "&" then hex4 b
             else String c "")
            ++ marshal_string_loop fuel' s'
          else
            let '(r, size) := utf8.DecodeRune s in
            if (r =? utf8.RuneError)%N && (size =? 1)%nat then
              "\ufffd" ++ marshal_string_loop fuel' s'
            else if (r =? 8232)%N then
              "\u2028" ++ marshal_string_loop fuel' (drop size s)
            else if (r =? 8233)%N then
              "\u2029" ++ marshal_string_loop fuel' (drop size s)
            else take size s ++ marshal_string_loop fuel' (drop size s)
      end
  end.

Definition marshal_string (s : string) : string :=
  String dquote (marshal_string_loop (String.length s) s) ++ String dquote "".

Fixpoint Marshal (v : value) : string :=
  match v with
  | Nil => "null"
  | Bool true => "true"
  | Bool false => "false"
  | Float f => MarshalFloat f
  | Str s => marshal_string s
  | Array l => "[" ++ concat_with "," (List.map Marshal l) ++ "]"
  | Map m =>
      "{" ++ concat_with ","
               (List.map (fun kv => marshal_string (fst kv) ++ ":" ++ Marshal (snd kv)) m)
          ++ "}"
  end.

(** *** [fmt.Sprint] of a decoded value (the [%v] verb) *)

Fixpoint Sprint (v : value) : string :=
  match v with
  | Nil => "<nil>"
  | Bool true => "true"
  | Bool false => "false"
  | Float f => FormatFloat f
  | Str s => s
  | Array l => "[" ++ concat_with " " (List.map Sprint l) ++ "]"
  | Map m =>
      "map[" ++ concat_with " "
                  (List.map (fun kv => fst kv ++ ":" ++ Sprint (snd kv)) m)
             ++ "]"
  end.

(** The [%T] verb. *)
Definition type_name (v : value) : string :=
  match v with
  | Nil => "<nil>"
  | Bool _ => "bool"
  | Float _ => "float64"
  | Str _ => "string"
  | Array _ => "[]interface {}"
  | Map _ => "map[string]interface {}"
  end.

(** ** gabs: [ParseJSON], [Path], [Data] *)

(** [json.Unmarshal(sample, &object)]; [None] is a non-nil error. *)
Definition ParseJSON (sample : string) : option value :=
  match json.parse_document sample with
  | Some r => match interp r with inl v => Some v | inr _ => None end
  | None => None
  end.

(** [Container.Search]: a nil container is [None]. At an object the next
    name selects a member; at an array the search goes on in every
    element and the results that are not nil are collected. *)
Fixpoint Search (object : value) (hierarchy : list string) {struct object}
  : option value :=
  match hierarchy with
  | [] => Some object
  | target :: hierarchy' =>
      match object with
      | Map mmap =>
          (fix member (m : list (string * value)) : option value :=
             match m with
             | [] => None
             | (k, v) :: m' =>
                 if String.eqb target k then Search v hierarchy' else member m'
             end) mmap
      | Array marray =>
          let tmpArray :=
            (fix each (l : list value) : list value :=
               match l with
               | [] => []
               | val :: l' =>
                   match Search val hierarchy with
                   | Some Nil | None => each l'
                   | Some res => res :: each l'
                   end
               end) marray in
          match tmpArray with
          | [] => None
          | _ => Some (Array tmpArray)
          end
      | _ => None
      end
  end.

Definition Path (g : value) (path : string) : option value :=
  Search g (strings.Split path ".").

(** What [Search] gathers at an array: the results in the elements, those
    that are nil left out. *)
Definition collect (hierarchy : list string) (marray : list value) : list value :=
  flat_map (fun val => match Search val hierarchy with
                       | Some Nil | None => []
                       | Some res => [res]
                       end) marray.

(** [Container.Data]: the data of a nil container is nil. *)
Definition Data (g : option value) : value :=
  match g with
  | None => Nil
  | Some object => object
  end.

(** ** [io.Reader], [json.Decoder] *)

(** How a reader ends: [io.EOF], or another error. *)
Inductive read_end : Type := EOF | Broken (msg : string).

(** A reader is what its calls of [Read] will return: the chunks of bytes,
    one for each call, then the end. ([bytes.Buffer] hands over what fits
    the decoder's buffer, a pipe what the writer has written so far.) *)
Record Reader : Type := { pending : list string; ending : read_end }.

(** A decoder: [buf] is [dec.buf[dec.scanp:]], the bytes read and not yet
    consumed. *)
Record Decoder : Type := { buf : string; src : Reader }.

Definition NewDecoder (r : Reader) : Decoder := {| buf := ""; src := r |}.

(** [dec.peek]: the next byte that is not white space, refilling the
    buffer as needed; [scanp] moves to that byte. *)
Fixpoint peek (b : string) (chunks : list string)
  : option ascii * string * list string :=
  match json.skip_space b with
  | String c _ as b' => (Some c, b', chunks)
  | EmptyString =>
      match chunks with
      | [] => (None, b, [])
      | ch :: chunks' => peek (b ++ ch) chunks'
      end
  end.

(** [dec.More()] *)
Definition More (dec : Decoder) : bool * Decoder :=
  let '(c, b, chunks) := peek (buf dec) (pending (src dec)) in
  let dec' := {| buf := b;
                 src := {| pending := chunks; ending := ending (src dec) |} |} in
  match c with
  | Some c => (negb (Ascii.eqb c "]") && negb (Ascii.eqb c "}"), dec')
  | None => (false, dec')
  end.

Fixpoint nonSpace (b : string) : bool :=
  match b with
  | EmptyString => false
  | String c b' => if json.isSpace c then nonSpace b' else true
  end.

(** What [dec.Decode(&m)] leaves in [m] and returns. *)
Inductive decoded : Type :=
| DValue (m : value)      (* err == nil *)
| DSyntaxError            (* *json.SyntaxError; [m] is still nil *)
| DEOF                    (* io.EOF *)
| DError (e : error).     (* any other error *)

Inductive value_read : Type :=
| VRead (v : json.raw) (rest : string)   (* a value, and what follows it *)
| VSyntax                                (* the scanner stopped at a byte *)
| VEnd.                                  (* the reader ended first *)

(** [dec.readValue]: scan the buffer for a value and read more while the
    value is not complete. A string, number or literal at the end of the
    buffer is complete only when the next byte, or [io.EOF], has been
    seen. Returns the buffer and the chunks left as well. *)
Fixpoint readValue (b : string) (chunks : list string) (e : read_end)
  : value_read * string * list string :=
  match json.scan b with
  | json.PSyntax => (VSyntax, b, chunks)
  | json.PDone v rest =>
      if json.is_container v || negb (String.eqb rest "")
      then (VRead v rest, b, chunks)
      else
        match chunks with
        | ch :: chunks' => readValue (b ++ ch) chunks' e
        | [] => match e with
                | EOF => (VRead v rest, b, [])
                | Broken _ => (VEnd, b, [])
                end
        end
  | json.PMore =>
      match chunks with
      | ch :: chunks' => readValue (b ++ ch) chunks' e
      | [] => (VEnd, b, [])
      end
  end.

(** [dec.Decode(&m)] with [m] a nil [interface{}]: the outcome, and the
    decoder afterwards. *)
Definition Decode (dec : Decoder) : decoded * Decoder :=
  let e := ending (src dec) in
  let '(p, b, chunks) := readValue (buf dec) (pending (src dec)) e in
  let r := {| pending := chunks; ending := e |} in
  match p with
  | VSyntax => (DSyntaxError, {| buf := b; src := r |})
  | VRead v rest =>
      match interp v with
      | inl m => (DValue m, {| buf := rest; src := r |})
      | inr lit => (DError (UnmarshalTypeError lit), {| buf := rest; src := r |})
      end
  | VEnd =>
      match e with
      | EOF => ((if nonSpace b then DError UnexpectedEOF else DEOF),
                {| buf := b; src := r |})
      | Broken msg => (DError (ReadError msg), {| buf := b; src := r |})
      end
  end.

(** [dec.Buffered()]: a reader over the bytes left in the buffer. *)
Definition Buffered (dec : Decoder) : string := buf dec.

(** ** Package [transform] *)

Definition truncationLength : nat := 512.

(** The text ["...\n[Value truncated]"] of the format string. *)
Definition truncation_mark : string :=
  "..." ++ String (chr 10) "[Value truncated]".

(** [truncatedValue]: just part of the value in case it is huge. *)
Definition truncatedValue (i : value) : string :=
  let s := Sprint i in
  if (truncationLength <? String.length s)%nat
  then Quote (take truncationLength s) ++ truncation_mark
  else s.

(** [jsonQuery]: the value of the field [query] of the JSON text [data]. *)
Definition jsonQuery (data query : string) : string :=
  match ParseJSON data with
  | None => "<nil>"
  | Some jsonParsed => Sprint (Data (Path jsonParsed query))
  end.

(** [parseTransform]: a substitution variable split into its position and
    its JSON query. *)
Definition parseTransform (s : string) : Z * string :=
  match strings.SplitN2 s "." with
  | [_] =>
      (* either the whole thing is a positional arg or the query *)
      match strconv.Atoi s with
      | None => (1%Z, s)
      | Some pos => (pos, "")
      end
  | part0 :: part1 :: _ =>
      (* check if it starts with a position, otherwise it is all the query *)
      match strconv.Atoi part0 with
      | None => (1%Z, s)
      | Some pos => (pos, part1)
      end
  | [] => (1%Z, s)
  end.

(** [data[i]] for an [int] index: a run-time panic out of range. *)
Definition index (data : list string) (i : Z) : result string :=
  if (i <? 0)%Z then Panic "runtime error: index out of range"
  else match nth_error data (Z.to_nat i) with
       | Some item => Ok item
       | None => Panic "runtime error: index out of range"
       end.

(** [dataLookup data]: the closure handed to [os.Expand]. *)
Definition dataLookup (data : list string) (s : string) : result string :=
  let '(pos, jsonKeyQuery) := parseTransform s in
  if (pos >? Z.of_nat (List.length data))%Z || (pos <? 0)%Z then Ok "<nil>"
  else
    item <- index data (pos - 1) ;;
    (* if just giving position, leave as-is *)
    if String.eqb jsonKeyQuery "" then Ok item
    else Ok (jsonQuery item jsonKeyQuery).

(** [transform]: the argument with its variables replaced. *)
Definition transform (data : list string) (arg : string) : result string :=
  os.Expand arg (dataLookup data).

(** The body of [for _, obj := range raw] in [readData]: every element
    must be an object and gets its own row. *)
Fixpoint explode (raw : list value) : result (list (list string)) :=
  match raw with
  | [] => Ok []
  | obj :: raw' =>
      match obj with
      | Map _ => rows <- explode raw' ;; Ok ([Marshal obj] :: rows)
      | _ => Err InvalidPipedData
      end
  end.

Definition rows : Type := list (list string).

(** What one turn of [for dec.More()] does: leave [readData], or go on
    with a decoder and the rows so far ([goto ProcessLoop] goes on with a
    new decoder). *)
Inductive turn_result : Type :=
| Stop (res : result rows)
| Next (dec : Decoder) (data : rows).

(** The body of the loop of [readData]. [json.Marshal] does not fail on a
    decoded value, so its error branches are left out. *)
Definition turn (dec : Decoder) (explodeArrays : bool) (data : rows)
  : turn_result :=
  let '(more, dec) := More dec in
  if negb more then Stop (Ok data)                   (* return data, nil *)
  else
    let '(d, dec) := Decode dec in
    let words :=
      (* failed to parse as JSON; parse as a word *)
      let subR := Buffered dec in
      match bufio.ScanWords subR with
      | (toks, None) =>
          (* restart the process loop with what is rest of the data:
             subR is used up, io.MultiReader(subR, r) reads on in r *)
          Next (NewDecoder (src dec)) (data ++ List.map (fun t => [t]) toks)%list
      | (_, Some err) =>
          Stop (Fatal ("reading standard input: " ++ err))
      end in
    match d with
    | DEOF => Stop (Ok data)                         (* break *)
    | DError err => Stop (Err err)
    | DSyntaxError => words                          (* allow parsing as a string *)
    | DValue m =>
        match m with
        | Array raw =>
            if explodeArrays then
              match explode raw with
              | Ok objs => Next dec (data ++ objs)%list
              | Err e => Stop (Err e)
              | Fatal msg => Stop (Fatal msg)
              | Panic msg => Stop (Panic msg)
              end
            else Next dec (data ++ [[Marshal m]])%list
        | Map _ => Next dec (data ++ [[Marshal m]])%list
        | Nil => words
        | _ => Stop (Err (UnexpectedType (type_name m) (truncatedValue m)))
        end
    end.

(** [readData], from the label [ProcessLoop] on: [dec] is the decoder in
    use and [data] the rows so far. One unit of [fuel] for each turn;
    [None] when it runs out. *)
Fixpoint ProcessLoop (fuel : nat) (dec : Decoder) (explodeArrays : bool)
         (data : rows) : option (result rows) :=
  match fuel with
  | O => None
  | S fuel' =>
      match turn dec explodeArrays data with
      | Stop res => Some res
      | Next dec' data' => ProcessLoop fuel' dec' explodeArrays data'
      end
  end.

(** Bytes and chunks a reader still holds, and with those the decoder has
    buffered: the loop gives up at least one of them at every turn. *)
Definition chunks_size (chunks : list string) : nat :=
  fold_right (fun ch n => S (String.length ch + n)) 0%nat chunks.

Definition reader_size (r : Reader) : nat := chunks_size (pending r).

Definition decoder_size (dec : Decoder) : nat :=
  (String.length (buf dec) + reader_size (src dec))%nat.

(** The bytes a decoder has buffered and those its reader still holds. *)
Definition held (dec : Decoder) : nat :=
  (String.length (buf dec)
   + String.length (fold_right append "" (pending (src dec))))%nat.

Definition readData (r : Reader) (explodeArrays : bool)
  : option (result rows) :=
  ProcessLoop (S (reader_size r)) (NewDecoder r) explodeArrays [].

(** [InputToCommands]: a set of rows, each with a slice of string values. *)
Definition InputToCommands (r : Reader) (args : list string) (explodeArrays : bool)
  : option (result rows) :=
  match readData r explodeArrays with
  | None => None
  | Some res =>
      Some (data <- res ;;
            if (List.length data =? 0)%nat then Ok [args]
            else mapM (fun row => mapM (fun arg => transform row arg) args) data)
  end.

(** [obj.(map[string]interface{})] succeeds. *)
Definition is_object (obj : value) : bool :=
  match obj with Map _ => true | _ => false end.

(** A string, a number or a boolean. *)
Definition is_scalar (m : value) : bool :=
  match m with Bool _ | Float _ | Str _ => true | _ => false end.

(** The states in which [readData r explodeArrays] stands at the head of
    its loop: the decoder in use and the rows so far. *)
Inductive at_loop_head (r : Reader) (explodeArrays : bool)
  : Decoder -> rows -> Prop :=
| head_first : at_loop_head r explodeArrays (NewDecoder r) []
| head_next (dec : Decoder) (data : rows) (dec' : Decoder) (data' : rows) :
    at_loop_head r explodeArrays dec data ->
    turn dec explodeArrays data = Next dec' data' ->
    at_loop_head r explodeArrays dec' data'.

End Engine.

(** The message of an error ([err.Error()]). *)
Definition Error (e : error) : string :=
  match e with
  | InvalidPipedData => "invalid piped data"
  | UnexpectedType ty rendering => "unexpected type (" ++ ty ++ "): " ++ rendering
  | UnexpectedEOF => "unexpected EOF"
  | UnmarshalTypeError lit =>
      "json: cannot unmarshal number " ++ lit ++ " into Go value of type float64"
  | ReadError msg => msg
  end.

(** ** A runtime to run the engine on sample inputs

    Numbers are kept as they are written and [Quote] treats every byte on
    its own; this is what Go does on ASCII text, and no sample below holds a
    number. *)

Definition quote_byte (c : ascii) : string :=
  let b := byte_of c in
  if Ascii.eqb c dquote || Ascii.eqb c "\" then String "\" (String c "")
  else if ((32 <=? b) && (b <? 127))%N then String c ""
  else if (b =? 7)%N then "\a"
  else if (b =? 8)%N then "\b"
  else if (b =? 12)%N then "\f"
  else if (b =? 10)%N then "\n"
  else if (b =? 13)%N then "\r"
  else if (b =? 9)%N then "\t"
  else if (b =? 11)%N then "\v"
  else String "\" (String "x" (String (hex_digit (b / 16))
                                 (String (hex_digit (N.land b 15)) ""))).

Fixpoint quote_bytes (s : string) : string :=
  match s with
  | EmptyString => String dquote ""
  | String c s' => quote_byte c ++ quote_bytes s'
  end.

Definition sample_runtime : Runtime :=
  {| float64 := string;
     ParseFloat := fun lit => Some lit;
     FormatFloat := fun lit => lit;
     MarshalFloat := fun lit => lit;
     Quote := fun s => String dquote (quote_bytes s) |}.

(** [bytes.NewBufferString(s)], read by a new decoder. [Read] fills the
    space it is given, and the decoder offers 512 bytes at first and twice
    as much each time it has to grow its buffer: a text shorter than 512
    bytes arrives in one piece. *)
Fixpoint buffer_reads (fuel size : nat) (s : string) : list string :=
  match fuel, s with
  | O, _ | _, EmptyString => []
  | S fuel', _ => take size s :: buffer_reads fuel' (2 * size) (drop size s)
  end.

Definition NewBufferString (s : string) : Reader :=
  {| pending := buffer_reads (String.length s) 512 s; ending := EOF |}.

(** A reader that hands over the given chunks and then [io.EOF], and the
    text it holds. *)
Definition chunked (chunks : list string) : Reader :=
  {| pending := chunks; ending := EOF |}.

Definition text_of (chunks : list string) : string :=
  fold_right append "" chunks.

Definition newline : string := String (chr 10) "".

(** [InputToCommands] on the sample runtime. *)
Definition run (r : Reader) (args : list string) (explodeArrays : bool)
  : option (result rows) :=
  InputToCommands (rt:=sample_runtime) r args explodeArrays.

(** A string literal that is too long to be a word for the scanner and that
    a control byte breaks off: a quote, 65536 letters, the byte 0x01. *)
Definition long_broken_literal : string :=
  String dquote (repeat_byte "a" bufio.MaxScanTokenSize ++ String (chr 1) "").

(** A text of [n] euro signs (U+20AC, three bytes each in UTF-8). *)
Fixpoint euros (n : nat) : string :=
  match n with
  | O => ""
  | S n' => utf8.EncodeRune 8364 ++ euros n'
  end.

(** ** Package [cmd]: [execute] ([cmd/root.go])

    The caller of [InputToCommands]. What the flags, the configuration file
    and the commands of cobra do is outside the engine, and acts on a world
    the engine does not see (the environment, the files, the network, the
    standard output, the state of viper and cobra):
    - [configure args] stands for the first part of [execute], from
      [tmpFlags.Parse(args)] to [explode := viper.GetBool("explode")]; it
      answers [None] when [initConfig] cannot read the configuration and
      ends the process with [os.Exit(-1)];
    - [Execute userCmd] stands for
      [RootCmd.SetArgs(userCmd); RootCmd.Execute()]. *)

Section Command.

Context {rt : Runtime}.

Variable World : Type.
Variable command_error : Type.
Variable configure : list string -> World -> option bool * World.
Variable Execute : list string -> World -> option command_error * World.

(** How [execute] ends. *)
Inductive ending_of_execute : Type :=
| Done                                  (* return nil *)
| NotConfigured                         (* os.Exit(-1) in initConfig *)
| ReadFailed (e : error)                (* the error of InputToCommands *)
| CommandFailed (e : command_error)     (* the error of a command *)
| Exited (msg : string)                 (* log.Fatalf in readData *)
| Panicked (msg : string).              (* a panic in transform *)

(** [for _, userCmd := range userCmd]: the commands in series, up to the
    first that fails. *)
Fixpoint run_commands (userCmd : rows) (w : World) : ending_of_execute * World :=
  match userCmd with
  | [] => (Done, w)
  | cmd :: userCmd' =>
      match Execute cmd w with
      | (Some err, w') => (CommandFailed err, w')
      | (None, w') => run_commands userCmd' w'
      end
  end.

(** [execute args pipeFrom]; [pipeFrom] is [None] for a nil reader (the
    standard input is a terminal). [None] when [readData] runs out of fuel,
    which it does not ([readData_total]). *)
Definition execute (args : list string) (pipeFrom : option Reader) (w : World)
  : option (ending_of_execute * World) :=
  match configure args w with
  | (None, w) => Some (NotConfigured, w)
  | (Some explode, w) =>
      match pipeFrom with
      | Some r =>
          (* do not read from input if it is a terminal *)
          match InputToCommands r args explode with
          | None => None
          | Some (Ok userCmd) => Some (run_commands userCmd w)
          | Some (Err e) => Some (ReadFailed e, w)
          | Some (Fatal msg) => Some (Exited msg, w)
          | Some (Panic msg) => Some (Panicked msg, w)
          end
      | None => Some (run_commands [args] w)
      end
  end.

End Command.

Arguments Done {command_error}.
Arguments NotConfigured {command_error}.
Arguments ReadFailed {command_error} e.
Arguments CommandFailed {command_error} e.
Arguments Exited {command_error} msg.
Arguments Panicked {command_error} msg.

(** A world for closed examples: the commands run so far. The
    configuration is read and leaves [explode] at its default, and a
    command fails when one of its arguments is [fail]. *)
Definition sample_configure (args : list string) (w : list (list string))
  : option bool * list (list string) :=
  (Some true, w).

Definition sample_Execute (cmd : list string) (w : list (list string))
  : option string * list (list string) :=
  (if existsb (String.eqb "fail") cmd then Some "failed" else None,
   (w ++ [cmd])%list).

(** * Properties *)

(** ** Strings *)

Lemma length_app (s t : string) :
  String.length (s ++ t) = (String.length s + String.length t)%nat.
Proof. induction s as [|c s IH]; simpl; [reflexivity | now rewrite IH]. Qed.

Lemma length_take (n : nat) (s : string) :
  String.length (take n s) = Nat.min n (String.length s).
Proof.
  revert s; induction n as [|n IH]; intros [|c s]; simpl; auto.
Qed.

Lemma length_drop (n : nat) (s : string) :
  String.length (drop n s) = (String.length s - n)%nat.
Proof.
  revert s; induction n as [|n IH]; intros [|c s]; simpl; auto.
Qed.

Lemma take_drop (n : nat) (s : string) : take n s ++ drop n s = s.
Proof.
  revert s; induction n as [|n IH]; intros [|c s]; simpl; auto.
  now rewrite IH.
Qed.

Lemma append_empty (s : string) : s ++ "" = s.
Proof. induction s as [|c s IH]; simpl; [reflexivity | now rewrite IH]. Qed.

(** ** The scanner uses up what it reads *)

Lemma skip_space_le (s : string) :
  (String.length (json.skip_space s) <= String.length s)%nat.
Proof.
  induction s as [|c s IH]; simpl; [lia|].
  destruct (json.isSpace c); simpl; lia.
Qed.

Lemma scan_string_lt (s body rest : string) :
  json.scan_string s = json.PDone body rest ->
  (String.length rest < String.length s)%nat.
Proof.
  remember (String.length s) as n eqn:Hn.
  revert s body rest Hn.
  induction n as [n IH] using lt_wf_ind; intros s body rest Hn H.
  assert (step : forall s' b r,
             (String.length s' < n)%nat ->
             json.scan_string s' = json.PDone b r ->
             (String.length r < String.length s')%nat).
  { intros s' b r Hlt E. exact (IH _ Hlt s' b r eq_refl E). }
  clear IH. subst n.
  destruct s as [|c s1]; simpl in H; [discriminate|].
  destruct (Ascii.eqb c dquote).
  { inversion H; subst; simpl; lia. }
  destruct (Ascii.eqb c "\").
  - destruct s1 as [|e s2]; [discriminate|].
    destruct (Ascii.eqb e "u").
    + destruct s2 as [|h1 [|h2 [|h3 [|h4 s3]]]];
        try (destruct (forallb _ _); discriminate).
      destruct (hex_value h1), (hex_value h2), (hex_value h3), (hex_value h4);
        try discriminate.
      destruct (json.scan_string s3) as [b r| |] eqn:E; try discriminate.
      inversion H; subst.
      apply step in E; simpl in *; lia.
    + destruct (json.simple_escape e); [|discriminate].
      destruct (json.scan_string s2) as [b r| |] eqn:E; try discriminate.
      inversion H; subst.
      apply step in E; simpl in *; lia.
  - destruct (byte_of c <? 32)%N; [discriminate|].
    destruct (json.scan_string s1) as [b r| |] eqn:E; try discriminate.
    inversion H; subst.
    apply step in E; simpl in *; lia.
Qed.

Lemma scan_number_le (st : json.nstate) (s lit rest : string) :
  json.scan_number st s = json.PDone lit rest ->
  (String.length rest <= String.length s)%nat.
Proof.
  revert st lit rest; induction s as [|c s IH]; intros st lit rest H; simpl in H.
  - destruct (json.may_end st); inversion H; subst; simpl; lia.
  - destruct (json.nstep st c) as [st'| |]; [| |discriminate].
    + destruct (json.scan_number st' s) as [l r| |] eqn:E; try discriminate.
      inversion H; subst. apply IH in E. simpl; lia.
    + inversion H; subst; simpl; lia.
Qed.

Lemma scan_literal_le (expect s : string) (u : unit) (rest : string) :
  json.scan_literal expect s = json.PDone u rest ->
  (String.length rest <= String.length s)%nat.
Proof.
  revert s; induction expect as [|e expect IH]; intros s H; simpl in H.
  - inversion H; subst; lia.
  - destruct s as [|c s]; [discriminate|].
    destruct (Ascii.eqb c e); [|discriminate].
    apply IH in H. simpl; lia.
Qed.

Ltac split_parse :=
  repeat match goal with
    | H : json.PDone _ _ = json.PDone _ _ |- _ => inversion H; subst; clear H
    | H : json.PMore = json.PDone _ _ |- _ => discriminate H
    | H : json.PSyntax = json.PDone _ _ |- _ => discriminate H
    | H : (if ?b then _ else _) = json.PDone _ _ |- _ => destruct b eqn:?
    | H : match ?x with _ => _ end = json.PDone _ _ |- _ => destruct x eqn:?
    end.

Ltac length_facts :=
  repeat match goal with
    | H : json.skip_space ?a = _ |- _ =>
        let L := fresh "L" in
        pose proof (skip_space_le a) as L; rewrite H in L; clear H
    | H : json.scan_string _ = json.PDone _ _ |- _ => apply scan_string_lt in H
    | H : json.scan_number _ _ = json.PDone _ _ |- _ => apply scan_number_le in H
    | H : json.scan_literal _ _ = json.PDone _ _ |- _ => apply scan_literal_le in H
    end.

Lemma parse_progress (fuel : nat) :
  (forall depth s v rest,
      json.parse_value fuel depth s = json.PDone v rest ->
      (String.length rest < String.length s)%nat)
  /\ (forall depth s acc v rest,
         json.parse_elements fuel depth s acc = json.PDone v rest ->
         (String.length rest < String.length s)%nat)
  /\ (forall depth s acc v rest,
         json.parse_members fuel depth s acc = json.PDone v rest ->
         (String.length rest < String.length s)%nat).
Proof.
  induction fuel as [|fuel (IHv & IHe & IHm)].
  { repeat split; intros; discriminate. }
  repeat split.
  - intros depth s v rest H. simpl in H. split_parse;
      repeat match goal with
        | H : json.parse_members fuel _ _ _ = json.PDone _ _ |- _ => apply IHm in H
        | H : json.parse_elements fuel _ _ _ = json.PDone _ _ |- _ => apply IHe in H
        end;
      length_facts; simpl in *; lia.
  - intros depth s acc v rest H. simpl in H. split_parse;
      repeat match goal with
        | H : json.parse_value fuel _ _ = json.PDone _ _ |- _ => apply IHv in H
        | H : json.parse_elements fuel _ _ _ = json.PDone _ _ |- _ => apply IHe in H
        end;
      length_facts; simpl in *; lia.
  - intros depth s acc v rest H. simpl in H. split_parse;
      repeat match goal with
        | H : json.parse_value fuel _ _ = json.PDone _ _ |- _ => apply IHv in H
        | H : json.parse_members fuel _ _ _ = json.PDone _ _ |- _ => apply IHm in H
        end;
      length_facts; simpl in *; lia.
Qed.

Lemma scan_progress (b : string) (v : json.raw) (rest : string) :
  json.scan b = json.PDone v rest ->
  (String.length rest < String.length b)%nat.
Proof. unfold json.scan. apply (proj1 (parse_progress _)). Qed.

Ltac parse_facts :=
  repeat match goal with
    | H : json.parse_value _ _ _ = json.PDone _ _ |- _ =>
        apply (proj1 (parse_progress _)) in H
    | H : json.parse_elements _ _ _ _ = json.PDone _ _ |- _ =>
        apply (proj1 (proj2 (parse_progress _))) in H
    | H : json.parse_members _ _ _ _ = json.PDone _ _ |- _ =>
        apply (proj2 (proj2 (parse_progress _))) in H
    end;
  length_facts; simpl in *; lia.

(** The scanner never runs out of fuel: two calls for each byte. *)
Lemma parse_fuel (n : nat) :
  forall m,
    (forall depth s,
        (2 * String.length s + 1 <= n)%nat -> (2 * String.length s + 1 <= m)%nat ->
        json.parse_value n depth s = json.parse_value m depth s)
    /\ (forall depth s acc,
           (2 * String.length s + 2 <= n)%nat -> (2 * String.length s + 2 <= m)%nat ->
           json.parse_elements n depth s acc = json.parse_elements m depth s acc)
    /\ (forall depth s acc,
           (2 * String.length s + 2 <= n)%nat -> (2 * String.length s + 2 <= m)%nat ->
           json.parse_members n depth s acc = json.parse_members m depth s acc).
Proof.
  induction n as [|n IH]; intros m.
  { repeat split; intros; lia. }
  destruct m as [|m].
  { repeat split; intros; lia. }
  destruct (IH m) as (IHv & IHe & IHm). clear IH.
  repeat split; intros depth s; intros; simpl;
    repeat first
      [ reflexivity
      | match goal with
        | |- context [json.parse_value n ?d ?x] =>
            rewrite (IHv d x) by parse_facts
        | |- context [json.parse_elements n ?d ?x ?a] =>
            rewrite (IHe d x a) by parse_facts
        | |- context [json.parse_members n ?d ?x ?a] =>
            rewrite (IHm d x a) by parse_facts
        end
      | match goal with
        | |- (match ?x with _ => _ end) = _ => destruct x eqn:?
        | |- (if ?x then _ else _) = _ => destruct x eqn:?
        end ].
Qed.

(** [scan] is the scanner: more fuel changes nothing. *)
Lemma scan_fuel (n : nat) (b : string) :
  (2 * String.length b + 1 <= n)%nat ->
  json.parse_value n 0 b = json.scan b.
Proof.
  intros H. unfold json.scan. apply (proj1 (parse_fuel n _)); lia.
Qed.

(** ** The other loops of the library have fuel to spare *)

Lemma DecodeRune_width (c : ascii) (s : string) :
  (1 <= snd (utf8.DecodeRune (String c s)))%nat.
Proof.
  unfold utf8.DecodeRune.
  repeat match goal with
    | |- context [if ?b then _ else _] => destruct b
    | |- context [match ?x with _ => _ end] => destruct x
    end; simpl; lia.
Qed.

Lemma skip_leading_fuel (n m : nat) (s : string) :
  (String.length s <= n)%nat -> (String.length s <= m)%nat ->
  bufio.skip_leading n s = bufio.skip_leading m s.
Proof.
  revert m s; induction n as [|n IH]; intros m s Hn Hm.
  - destruct s; simpl in Hn; [|lia]. destruct m; reflexivity.
  - destruct m as [|m]; [destruct s; simpl in Hm; [reflexivity|lia]|].
    destruct s as [|c s]; [reflexivity|].
    cbn [bufio.skip_leading].
    pose proof (DecodeRune_width c s) as W.
    destruct (utf8.DecodeRune (String c s)) as [r width]. cbn [snd] in W.
    destruct (bufio.isSpace r); [|reflexivity].
    apply IH; rewrite length_drop; cbn [String.length] in *; lia.
Qed.

Lemma skip_leading_le (n : nat) (s : string) :
  (String.length (bufio.skip_leading n s) <= String.length s)%nat.
Proof.
  revert s; induction n as [|n IH]; intros s; [simpl; lia|].
  destruct s as [|c s]; [simpl; lia|]. cbn [bufio.skip_leading].
  destruct (utf8.DecodeRune (String c s)) as [r width].
  destruct (bufio.isSpace r); [|lia].
  etransitivity; [apply IH|]. rewrite length_drop. lia.
Qed.

Lemma find_space_fuel (n m i : nat) (s : string) :
  (String.length s <= n)%nat -> (String.length s <= m)%nat ->
  bufio.find_space n i s = bufio.find_space m i s.
Proof.
  revert m i s; induction n as [|n IH]; intros m i s Hn Hm.
  - destruct s; simpl in Hn; [|lia]. destruct m; reflexivity.
  - destruct m as [|m]; [destruct s; simpl in Hm; [reflexivity|lia]|].
    destruct s as [|c s]; [reflexivity|].
    cbn [bufio.find_space].
    pose proof (DecodeRune_width c s) as W.
    destruct (utf8.DecodeRune (String c s)) as [r width]. cbn [snd] in W.
    destruct (bufio.isSpace r); [reflexivity|].
    apply IH; rewrite length_drop; cbn [String.length] in *; lia.
Qed.

Lemma find_space_next (n i : nat) (s : string) (j next : nat) :
  bufio.find_space n i s = Some (j, next) -> (i < next)%nat.
Proof.
  revert i s; induction n as [|n IH]; intros i s H; [discriminate|].
  destruct s as [|c s]; [discriminate|]. cbn [bufio.find_space] in H.
  pose proof (DecodeRune_width c s) as W.
  destruct (utf8.DecodeRune (String c s)) as [r width]. cbn [snd] in W.
  destruct (bufio.isSpace r).
  - inversion H; subst. lia.
  - apply IH in H. lia.
Qed.

Lemma scan_words_fuel (n m : nat) (data : string) :
  (String.length data <= n)%nat -> (String.length data <= m)%nat ->
  bufio.scan_words n data = bufio.scan_words m data.
Proof.
  revert m data; induction n as [|n IH]; intros m data Hn Hm.
  - destruct data; simpl in Hn; [|lia]. destruct m; reflexivity.
  - destruct m as [|m]; [destruct data; simpl in Hm; [reflexivity|lia]|].
    cbn [bufio.scan_words].
    pose proof (skip_leading_le (String.length data) data) as L.
    destruct (bufio.skip_leading (String.length data) data) as [|c w] eqn:E;
      [reflexivity|].
    destruct (bufio.find_space _ 0 _) as [[i next]|] eqn:F; [|reflexivity].
    apply find_space_next in F.
    rewrite (IH m (drop next (String c w))); [reflexivity| |];
      rewrite length_drop; cbn [String.length] in *; lia.
Qed.

Lemma escape_u_lt (s : string) (r : N) (s' : string) :
  json.escape_u s = Some (r, s') -> (String.length s' < String.length s)%nat.
Proof.
  unfold json.escape_u.
  destruct s as [|b [|u [|h1 [|h2 [|h3 [|h4 t]]]]]]; try discriminate.
  destruct (Ascii.eqb b "\" && Ascii.eqb u "u"); [|discriminate].
  destruct (json.getu4 h1 h2 h3 h4); [|discriminate].
  intros H; inversion H; subst. simpl. lia.
Qed.

Lemma unquote_loop_fuel (n m : nat) (s : string) :
  (String.length s <= n)%nat -> (String.length s <= m)%nat ->
  json.unquote_loop n s = json.unquote_loop m s.
Proof.
  revert m s; induction n as [|n IH]; intros m s Hn Hm.
  - destruct s; simpl in Hn; [|lia]. destruct m; reflexivity.
  - destruct m as [|m]; [destruct s; simpl in Hm; [reflexivity|lia]|].
    destruct s as [|c s]; [reflexivity|].
    pose proof (DecodeRune_width c s) as W.
    assert (D : forall t, (String.length t <= String.length s)%nat ->
                          json.unquote_loop n t = json.unquote_loop m t).
    { intros t Ht. apply IH; cbn [String.length] in *; lia. }
    cbn [json.unquote_loop].
    destruct (Ascii.eqb c "\").
    + destruct (json.escape_u (String c s)) as [[rr s']|] eqn:E1.
      * apply escape_u_lt in E1. cbn [String.length] in E1.
        rewrite (D s') by lia.
        destruct (json.escape_u s') as [[rr1 s'']|] eqn:E2; [|reflexivity].
        apply escape_u_lt in E2. rewrite (D s'') by lia. reflexivity.
      * destruct s as [|e s2]; [reflexivity|].
        rewrite (D s2) by (cbn [String.length]; lia). reflexivity.
    + rewrite (D s) by lia.
      destruct (utf8.DecodeRune (String c s)) as [rr size]. cbn [snd] in W.
      rewrite (D (drop size (String c s)));
        [reflexivity | rewrite length_drop; cbn [String.length]; lia].
Qed.

Section ValueText.

Context {rt : Runtime}.

Lemma marshal_string_loop_fuel (n m : nat) (s : string) :
  (String.length s <= n)%nat -> (String.length s <= m)%nat ->
  marshal_string_loop n s = marshal_string_loop m s.
Proof.
  revert m s; induction n as [|n IH]; intros m s Hn Hm.
  - destruct s; simpl in Hn; [|lia]. destruct m; reflexivity.
  - destruct m as [|m]; [destruct s; simpl in Hm; [reflexivity|lia]|].
    destruct s as [|c s]; [reflexivity|].
    pose proof (DecodeRune_width c s) as W.
    assert (D : forall t, (String.length t <= String.length s)%nat ->
                          marshal_string_loop n t = marshal_string_loop m t).
    { intros t Ht. apply IH; cbn [String.length] in *; lia. }
    cbn [marshal_string_loop].
    rewrite (D s) by lia.
    destruct (utf8.DecodeRune (String c s)) as [rr size]. cbn [snd] in W.
    rewrite (D (drop size (String c s)));
      [reflexivity | rewrite length_drop; cbn [String.length]; lia].
Qed.

End ValueText.

(** ** The loop of [readData] *)

Section Loop.

Context {rt : Runtime}.

Lemma peek_size (b : string) (chunks : list string) c b' chunks' :
  peek b chunks = (c, b', chunks') ->
  (String.length b' + chunks_size chunks' <= String.length b + chunks_size chunks)%nat
  /\ (c <> None -> (0 < String.length b')%nat).
Proof.
  revert b; induction chunks as [|ch chunks IH]; intros b H; simpl in H.
  - destruct (json.skip_space b) as [|x tl] eqn:E.
    + inversion H; subst; split; [lia | congruence].
    + inversion H; subst. pose proof (skip_space_le b) as L; rewrite E in L.
      split; [simpl in *; lia | simpl; lia].
  - destruct (json.skip_space b) as [|x tl] eqn:E.
    + apply IH in H. rewrite length_app in H. simpl. split; [lia | tauto].
    + inversion H; subst. pose proof (skip_space_le b) as L; rewrite E in L.
      split; [simpl in *; lia | simpl; lia].
Qed.

Lemma More_size (dec dec' : Decoder) (more : bool) :
  More dec = (more, dec') ->
  (decoder_size dec' <= decoder_size dec)%nat
  /\ (more = true -> (0 < String.length (buf dec'))%nat).
Proof.
  unfold More. destruct (peek (buf dec) (pending (src dec))) as [[c b] chunks] eqn:E.
  apply peek_size in E. destruct E as [E1 E2].
  unfold decoder_size, reader_size.
  destruct c as [c|]; intros H; inversion H; subst; simpl; split; try lia;
    try discriminate; intros _; apply E2; discriminate.
Qed.

Lemma readValue_size (b : string) (chunks : list string) (e : read_end) p b' chunks' :
  readValue b chunks e = (p, b', chunks') ->
  (String.length b' + chunks_size chunks' <= String.length b + chunks_size chunks)%nat
  /\ (String.length b <= String.length b')%nat
  /\ (forall v rest, p = VRead v rest -> (String.length rest < String.length b')%nat).
Proof.
  revert b; induction chunks as [|ch chunks IH]; intros b H; simpl in H.
  - destruct (json.scan b) as [v rest| |] eqn:E.
    + destruct (json.is_container v || negb (rest =? "")).
      * inversion H; subst. repeat split; try lia.
        intros v0 rest0 Hv; inversion Hv; subst. now apply scan_progress in E.
      * destruct e; inversion H; subst; repeat split; try lia.
        -- intros v0 rest0 Hv; inversion Hv; subst. now apply scan_progress in E.
        -- intros; discriminate.
    + inversion H; subst. repeat split; try lia. intros; discriminate.
    + inversion H; subst. repeat split; try lia. intros; discriminate.
  - destruct (json.scan b) as [v rest| |] eqn:E.
    + destruct (json.is_container v || negb (rest =? "")).
      * inversion H; subst. repeat split; try lia.
        intros v0 rest0 Hv; inversion Hv; subst. now apply scan_progress in E.
      * apply IH in H. rewrite length_app in H. simpl.
        destruct H as (H1 & H2 & H3). repeat split; try lia. exact H3.
    + apply IH in H. rewrite length_app in H. simpl.
      destruct H as (H1 & H2 & H3). repeat split; try lia. exact H3.
    + inversion H; subst. repeat split; try lia. intros; discriminate.
Qed.

Lemma Decode_size (dec dec' : Decoder) (d : decoded) :
  Decode dec = (d, dec') ->
  (decoder_size dec' <= decoder_size dec)%nat
  /\ (forall m, d = DValue m -> (decoder_size dec' < decoder_size dec)%nat)
  /\ (d = DSyntaxError -> (String.length (buf dec) <= String.length (buf dec'))%nat).
Proof.
  unfold Decode.
  destruct (readValue (buf dec) (pending (src dec)) (ending (src dec)))
    as [[p b] chunks] eqn:E.
  apply readValue_size in E. destruct E as (E1 & E2 & E3).
  unfold decoder_size, reader_size.
  destruct p as [v rest| |].
  - specialize (E3 v rest eq_refl).
    destruct (interp v); intros H; inversion H; subst; simpl;
      repeat split; try lia; intros; try discriminate; lia.
  - intros H; inversion H; subst; simpl. repeat split; try lia.
    intros; discriminate.
  - destruct (ending (src dec)); [destruct (nonSpace b)|];
      intros H; inversion H; subst; simpl; repeat split; try lia;
      intros; discriminate.
Qed.

(** Every turn that goes on leaves less to read. *)
Lemma turn_decreases (dec : Decoder) (e : bool) (data : rows) dec' data' :
  turn dec e data = Next dec' data' ->
  (decoder_size dec' < decoder_size dec)%nat.
Proof.
  unfold turn.
  destruct (More dec) as [more dec1] eqn:EM.
  apply More_size in EM. destruct EM as [M1 M2].
  destruct more; simpl; [|discriminate]. specialize (M2 eq_refl).
  destruct (Decode dec1) as [d dec2] eqn:ED.
  apply Decode_size in ED. destruct ED as (D1 & D2 & D3).
  assert (W : (decoder_size dec2 < decoder_size dec \/
               0 < String.length (buf dec2))%nat ->
              (decoder_size (NewDecoder (src dec2)) < decoder_size dec)%nat).
  { unfold decoder_size in *. simpl. lia. }
  destruct d as [m| | |err]; try discriminate.
  - specialize (D2 m eq_refl).
    destruct m as [|b0|f|s0|l|mm]; try discriminate.
    + destruct (bufio.ScanWords (Buffered dec2)) as [toks [err|]];
        [discriminate|].
      intros H; inversion H; subst. apply W. left; lia.
    + destruct e.
      * destruct (explode l); try discriminate.
        intros H; inversion H; subst; lia.
      * intros H; inversion H; subst; lia.
    + intros H; inversion H; subst; lia.
  - specialize (D3 eq_refl).
    destruct (bufio.ScanWords (Buffered dec2)) as [toks [err|]];
      [discriminate|].
    intros H; inversion H; subst. apply W. right; lia.
Qed.

Lemma ProcessLoop_total (fuel : nat) (dec : Decoder) (e : bool) (data : rows) :
  (decoder_size dec < fuel)%nat ->
  exists res, ProcessLoop fuel dec e data = Some res.
Proof.
  revert dec data; induction fuel as [|fuel IH]; intros dec data Hlt; [lia|].
  simpl. destruct (turn dec e data) as [res|dec' data'] eqn:E.
  - now exists res.
  - apply IH. apply turn_decreases in E. lia.
Qed.

(** More turns than the loop takes change nothing. *)
Lemma ProcessLoop_fuel (e : bool) (n m : nat) (dec : Decoder) (data : rows) :
  (decoder_size dec < n)%nat -> (decoder_size dec < m)%nat ->
  ProcessLoop n dec e data = ProcessLoop m dec e data.
Proof.
  revert m dec data; induction n as [|n IH]; intros m dec data Hn Hm; [lia|].
  destruct m as [|m]; [lia|]. cbn [ProcessLoop].
  destruct (turn dec e data) as [res|dec' data'] eqn:T; [reflexivity|].
  apply turn_decreases in T. apply IH; lia.
Qed.

(** [readData] returns, exits or panics: its loop ends. *)
Lemma readData_total (r : Reader) (e : bool) :
  exists res, readData r e = Some res.
Proof.
  unfold readData. apply ProcessLoop_total.
  unfold decoder_size, NewDecoder; simpl. lia.
Qed.

Lemma InputToCommands_total (r : Reader) (args : list string) (e : bool) :
  exists res, InputToCommands r args e = Some res.
Proof.
  unfold InputToCommands. destruct (readData_total r e) as [res H].
  rewrite H. eauto.
Qed.

Lemma at_loop_head_fuel (r : Reader) (e : bool) (dec : Decoder) (data : rows) :
  at_loop_head r e dec data ->
  exists n, (decoder_size dec < n)%nat /\ readData r e = ProcessLoop n dec e data.
Proof.
  induction 1 as [|dec data dec' data' _ (n & Hn & IH) Ht].
  - exists (S (reader_size r)). split; [|reflexivity].
    unfold decoder_size, NewDecoder; simpl; lia.
  - destruct n as [|n]; [lia|].
    exists n. split.
    + apply turn_decreases in Ht. lia.
    + rewrite IH. simpl. now rewrite Ht.
Qed.

(** What a turn of the loop decides is what [readData] returns. *)
Lemma run_stops (r : Reader) (e : bool) (dec : Decoder) (data : rows) res :
  at_loop_head r e dec data ->
  turn dec e data = Stop res ->
  readData r e = Some res.
Proof.
  intros Hh Ht. destruct (at_loop_head_fuel Hh) as (n & Hn & ->).
  destruct n as [|n]; [lia|]. simpl. now rewrite Ht.
Qed.

Lemma turn_extends (dec : Decoder) (e : bool) (data : rows) :
  match turn dec e data with
  | Stop (Ok final) => final = data
  | Stop _ => True
  | Next _ data' => exists more, data' = (data ++ more)%list
  end.
Proof.
  unfold turn.
  destruct (More dec) as [more dec1]. destruct more; simpl; [|reflexivity].
  destruct (Decode dec1) as [d dec2].
  destruct d as [m| | |err]; simpl; auto.
  - destruct m as [|b0|f|s0|l|mm]; simpl; eauto.
    + destruct (bufio.ScanWords (Buffered dec2)) as [toks [err|]]; eauto.
    + destruct e; eauto. destruct (explode l); eauto.
  - destruct (bufio.ScanWords (Buffered dec2)) as [toks [err|]]; eauto.
Qed.

Lemma ProcessLoop_extends (fuel : nat) (dec : Decoder) (e : bool) (data final : rows) :
  ProcessLoop fuel dec e data = Some (Ok final) ->
  exists more, final = (data ++ more)%list.
Proof.
  revert dec data; induction fuel as [|fuel IH]; intros dec data H; [discriminate|].
  simpl in H. pose proof (turn_extends dec e data) as T.
  destruct (turn dec e data) as [res|dec' data'].
  - inversion H; subst. exists []. now rewrite app_nil_r.
  - destruct T as [more ->]. apply IH in H. destruct H as [more' ->].
    exists (more ++ more')%list. now rewrite app_assoc.
Qed.

(** The rows at the head of the loop are the first rows of the result. *)
Lemma at_loop_head_kept (r : Reader) (e : bool) (dec : Decoder) (data final : rows) :
  at_loop_head r e dec data ->
  readData r e = Some (Ok final) ->
  exists more, final = (data ++ more)%list.
Proof.
  intros Hh H. destruct (at_loop_head_fuel Hh) as (n & _ & E).
  rewrite E in H. now apply ProcessLoop_extends in H.
Qed.

End Loop.

(** ** [os.Expand] *)

Lemma isDigit_cases (d : ascii) :
  isDigit d = true ->
  In d ["0"; "1"; "2"; "3"; "4"; "5"; "6"; "7"; "8"; "9"]%char.
Proof.
  destruct d as [[] [] [] [] [] [] [] []]; vm_compute; intros H;
    try discriminate H; tauto.
Qed.

Lemma getShellName_digit (d : ascii) (rest : string) :
  isDigit d = true ->
  os.getShellName (String d rest) = (String d "", 1%nat).
Proof.
  intros H. apply isDigit_cases in H. simpl in H.
  repeat (destruct H as [<-|H]; [reflexivity|]). contradiction.
Qed.

(** The fuel of [Expand_loop] does not matter once it covers the text. *)
Lemma Expand_loop_fuel (mapping : string -> result string) (n m : nat) (s : string) :
  (String.length s <= n)%nat -> (String.length s <= m)%nat ->
  os.Expand_loop n s mapping = os.Expand_loop m s mapping.
Proof.
  revert m s; induction n as [|n IH]; intros m s Hn Hm.
  - destruct s; simpl in Hn; [|lia]. destruct m; reflexivity.
  - destruct m as [|m].
    + destruct s; simpl in Hm; [reflexivity | lia].
    + destruct s as [|c tl]; [reflexivity|]. simpl in Hn, Hm.
      assert (D : forall w, os.Expand_loop n (drop w tl) mapping
                            = os.Expand_loop m (drop w tl) mapping).
      { intros w. apply IH; rewrite length_drop; lia. }
      simpl. destruct (Ascii.eqb c "$" && negb (tl =? "")).
      * destruct (os.getShellName tl) as [name w].
        rewrite (D w). reflexivity.
      * specialize (D 0%nat). simpl in D. rewrite D. reflexivity.
Qed.

(** A text without [$] expands to itself. *)
Lemma Expand_loop_plain (mapping : string -> result string) (n : nat) (s : string) :
  indexByte "$" s = None -> os.Expand_loop n s mapping = Ok s.
Proof.
  revert s; induction n as [|n IH]; intros s H; [reflexivity|].
  destruct s as [|c tl]; [reflexivity|].
  cbn [indexByte] in H. cbn [os.Expand_loop].
  rewrite (Ascii.eqb_sym c "$"). destruct (Ascii.eqb "$" c); [discriminate|].
  cbn [andb]. destruct (indexByte "$" tl) eqn:E'; [discriminate|].
  rewrite (IH tl E'). reflexivity.
Qed.

(** An unbraced digit is a marker of its own: what follows it is text. *)
Lemma Expand_loop_digit (mapping : string -> result string) (n : nat)
      (d : ascii) (rest : string) :
  isDigit d = true ->
  os.Expand_loop (S n) (String "$" (String d rest)) mapping
  = (v <- mapping (String d "") ;;
     r <- os.Expand_loop n rest mapping ;; Ok (v ++ r)).
Proof.
  intros H. cbn [os.Expand_loop].
  rewrite getShellName_digit by exact H. reflexivity.
Qed.

Lemma Expand_digit (mapping : string -> result string) (d : ascii) (rest : string) :
  isDigit d = true ->
  os.Expand (String "$" (String d rest)) mapping
  = (v <- mapping (String d "") ;; r <- os.Expand rest mapping ;; Ok (v ++ r)).
Proof.
  intros H. unfold os.Expand.
  change (String.length (String "$" (String d rest)))
    with (S (S (String.length rest))).
  rewrite Expand_loop_digit by exact H.
  rewrite (@Expand_loop_fuel mapping (S (String.length rest))
             (String.length rest) rest) by lia.
  reflexivity.
Qed.

Section Expansion.

Context {rt : Runtime}.

(** ** The reference of a marker *)

Lemma dataLookup_out_of_range (data : list string) (s : string) :
  (fst (parseTransform s) < 0 \/ Z.of_nat (List.length data) < fst (parseTransform s))%Z ->
  dataLookup data s = Ok "<nil>".
Proof.
  unfold dataLookup. destruct (parseTransform s) as [pos q]. cbn [fst]. intros H.
  destruct (pos >? Z.of_nat (List.length data))%Z eqn:E1; [reflexivity|].
  destruct (pos <? 0)%Z eqn:E2; [reflexivity|].
  rewrite Z.gtb_ltb in E1. apply Z.ltb_ge in E1, E2. lia.
Qed.

Lemma dataLookup_zero (data : list string) (s : string) :
  fst (parseTransform s) = 0%Z ->
  dataLookup data s = Panic "runtime error: index out of range".
Proof.
  unfold dataLookup. destruct (parseTransform s) as [pos q]. cbn [fst]. intros ->.
  assert (E : (0 >? Z.of_nat (List.length data))%Z = false).
  { rewrite Z.gtb_ltb. apply Z.ltb_ge. lia. }
  rewrite E. reflexivity.
Qed.

(** C1. The claim: a marker whose position is below 1 or above the number
    of fields of the record is replaced by [<nil>], and the expansion never
    aborts. The code tests [pos > len(data) || pos < 0], so position 0
    passes the test and [data[pos-1]] reads [data[-1]]: for every record
    the templates [$0], [${0}] and [${0.x}] make [transform] panic. *)
Theorem transform_position_zero_panics (data : list string) :
  transform data "$0" = Panic "runtime error: index out of range"
  /\ transform data "${0}" = Panic "runtime error: index out of range"
  /\ transform data "a b ${0.x}" = Panic "runtime error: index out of range".
Proof.
  unfold transform, os.Expand.
  remember (dataLookup data) as lookup eqn:L.
  cbn. subst lookup.
  rewrite !dataLookup_zero by reflexivity. repeat split.
Qed.

(** C2. The claim: the unbraced marker [$N.path] is replaced by what [path]
    selects in field [N], as [${N.path}] is. The code hands the template to
    [os.Expand], for which an unbraced digit is a name of its own: [$1.uuid]
    is field 1 followed by the text [.uuid]. *)
Theorem transform_unbraced_path :
  transform [js "{'uuid':'x'}"] "foo $1.uuid"
    = Ok ("foo " ++ js "{'uuid':'x'}" ++ ".uuid")
  /\ transform [js "{'uuid':'x'}"] "foo ${1.uuid}" = Ok "foo x".
Proof. split; reflexivity. Qed.

(** For every record and every path without [$], [$N.path] is field [N]
    followed by [.path]. *)
Lemma transform_unbraced_is_field (data : list string) (d : ascii) (path field : string) :
  isDigit d = true ->
  dataLookup data (String d "") = Ok field ->
  indexByte "$" path = None ->
  transform data (String "$" (String d (String "." path)))
  = Ok (field ++ String "." path).
Proof.
  intros Hd Hf Hp. unfold transform. rewrite Expand_digit by exact Hd.
  rewrite Hf. unfold os.Expand. rewrite Expand_loop_plain; [reflexivity|].
  simpl. now rewrite Hp.
Qed.

End Expansion.

(** ** The rows [readData] extracts *)

Section Extraction.

Context {rt : Runtime}.

Lemma turn_decoded (dec dec1 dec2 : Decoder) (d : decoded) (e : bool) (data : rows) :
  More dec = (true, dec1) ->
  Decode dec1 = (d, dec2) ->
  turn dec e data =
    let words :=
      match bufio.ScanWords (Buffered dec2) with
      | (toks, None) =>
          Next (NewDecoder (src dec2)) (data ++ List.map (fun t => [t]) toks)%list
      | (_, Some err) => Stop (Fatal ("reading standard input: " ++ err))
      end in
    match d with
    | DEOF => Stop (Ok data)
    | DError err => Stop (Err err)
    | DSyntaxError => words
    | DValue m =>
        match m with
        | Array raw =>
            if e then
              match explode raw with
              | Ok objs => Next dec2 (data ++ objs)%list
              | Err x => Stop (Err x)
              | Fatal msg => Stop (Fatal msg)
              | Panic msg => Stop (Panic msg)
              end
            else Next dec2 (data ++ [[Marshal m]])%list
        | Map _ => Next dec2 (data ++ [[Marshal m]])%list
        | Nil => words
        | _ => Stop (Err (UnexpectedType (type_name m) (truncatedValue m)))
        end
    end.
Proof.
  intros HM HD. unfold turn. rewrite HM. cbn [negb]. rewrite HD. reflexivity.
Qed.

Lemma explode_spec (raw : list value) :
  explode raw =
    if forallb is_object raw
    then Ok (List.map (fun obj => [Marshal obj]) raw)
    else Err InvalidPipedData.
Proof.
  induction raw as [|obj raw IH]; [reflexivity|].
  cbn [explode forallb List.map].
  destruct obj; try reflexivity.
  rewrite IH. cbn [is_object andb]. destruct (forallb is_object raw); reflexivity.
Qed.

Lemma InputToCommands_stops (r : Reader) (args : list string) (e : bool) :
  forall res : result rows,
    readData r e = Some res ->
    match res with
    | Ok _ => True
    | Err x => InputToCommands r args e = Some (Err x)
    | Fatal msg => InputToCommands r args e = Some (Fatal msg)
    | Panic msg => InputToCommands r args e = Some (Panic msg)
    end.
Proof.
  intros res H. unfold InputToCommands. rewrite H. destruct res; reflexivity.
Qed.

(** C3, as the code has it. When the word scanner reports an error in the
    fallback path (after a syntax error, or after a decoded [null]),
    [readData] logs [reading standard input: err] and exits the process
    ([log.Fatalf]): no error value reaches the caller of [readData] or of
    [InputToCommands]. *)
Theorem scan_error_exits (r : Reader) (e : bool) (args : list string)
        (dec dec1 dec2 : Decoder) (data : rows) (d : decoded)
        (toks : list string) (err : string) :
  at_loop_head r e dec data ->
  More dec = (true, dec1) ->
  Decode dec1 = (d, dec2) ->
  d = DSyntaxError \/ d = DValue Nil ->
  bufio.ScanWords (Buffered dec2) = (toks, Some err) ->
  readData r e = Some (Fatal ("reading standard input: " ++ err))
  /\ InputToCommands r args e = Some (Fatal ("reading standard input: " ++ err)).
Proof.
  intros Hh HM HD Hd HW.
  assert (R : readData r e = Some (Fatal ("reading standard input: " ++ err))).
  { apply (run_stops Hh). rewrite (@turn_decoded _ _ _ _ e data HM HD).
    cbn zeta. rewrite HW. destruct Hd as [-> | ->]; reflexivity. }
  split; [exact R|]. exact (@InputToCommands_stops r args _ _ R).
Qed.

(** C4. When the decoder yields an array and [explodeArrays] is set: if
    every element is an object, one row for each element, holding its JSON
    text, is added after the rows so far, and [readData] returns what the
    loop returns when it goes on from these rows: exactly these rows when
    nothing follows the array, and in every case a matrix, if any, that
    begins with them; if not every element is an object, [readData] and
    [InputToCommands] return the error [invalid piped data] and nothing
    else. *)
Theorem explode_array (r : Reader) (args : list string)
        (dec dec1 dec2 : Decoder) (data : rows) (raw : list value) :
  at_loop_head r true dec data ->
  More dec = (true, dec1) ->
  Decode dec1 = (DValue (Array raw), dec2) ->
  if forallb is_object raw
  then
    let data' := (data ++ List.map (fun obj => [Marshal obj]) raw)%list in
    at_loop_head r true dec2 data'
    /\ (forall fuel, (decoder_size dec2 < fuel)%nat ->
                     readData r true = ProcessLoop fuel dec2 true data')
    /\ (forall dec3, More dec2 = (false, dec3) ->
                     readData r true = Some (Ok data'))
    /\ (forall final, readData r true = Some (Ok final) ->
                      exists more, final = (data' ++ more)%list)
  else
    readData r true = Some (Err InvalidPipedData)
    /\ InputToCommands r args true = Some (Err InvalidPipedData)
    /\ Error InvalidPipedData = "invalid piped data".
Proof.
  intros Hh HM HD.
  pose proof (@turn_decoded _ _ _ _ true data HM HD) as T. cbn in T.
  rewrite explode_spec in T.
  destruct (forallb is_object raw).
  - assert (Hh' : at_loop_head r true dec2
                    (data ++ List.map (fun obj => [Marshal obj]) raw)%list).
    { exact (head_next Hh T). }
    split; [exact Hh'|]. split; [|split].
    + intros fuel Hf. destruct (at_loop_head_fuel Hh') as (n & Hn & ->).
      now apply ProcessLoop_fuel.
    + intros dec3 HM3. apply (run_stops Hh'). unfold turn. now rewrite HM3.
    + intros final Hf. exact (at_loop_head_kept Hh' Hf).
  - assert (R : readData r true = Some (Err InvalidPipedData)).
    { exact (run_stops Hh T). }
    repeat split; [exact R|]. exact (@InputToCommands_stops r args _ _ R).
Qed.

(** C5. When [readData] returns no row, [InputToCommands] returns one row:
    the arguments as they are. *)
Theorem empty_stream_passthrough (r : Reader) (args : list string) (e : bool) :
  readData r e = Some (Ok []) ->
  InputToCommands r args e = Some (Ok [args]).
Proof. intros H. unfold InputToCommands. rewrite H. reflexivity. Qed.

(** An empty input is such a stream. *)
Lemma empty_input_passthrough (args : list string) (e : bool) :
  InputToCommands (NewBufferString "") args e = Some (Ok [args]).
Proof. reflexivity. Qed.

(** C7. When the decoder yields a string, a number or a boolean, [readData]
    and [InputToCommands] return the error
    [unexpected type (T): v], with [T] the Go type of the value and [v] its
    text as [truncatedValue] gives it. *)
Theorem top_level_scalar (r : Reader) (e : bool) (args : list string)
        (dec dec1 dec2 : Decoder) (data : rows) (m : value) :
  at_loop_head r e dec data ->
  More dec = (true, dec1) ->
  Decode dec1 = (DValue m, dec2) ->
  is_scalar m = true ->
  readData r e = Some (Err (UnexpectedType (type_name m) (truncatedValue m)))
  /\ InputToCommands r args e
     = Some (Err (UnexpectedType (type_name m) (truncatedValue m)))
  /\ Error (UnexpectedType (type_name m) (truncatedValue m))
     = "unexpected type (" ++ type_name m ++ "): " ++ truncatedValue m.
Proof.
  intros Hh HM HD Hs.
  assert (R : readData r e
              = Some (Err (UnexpectedType (type_name m) (truncatedValue m)))).
  { apply (run_stops Hh). rewrite (@turn_decoded _ _ _ _ e data HM HD).
    destruct m; try discriminate Hs; reflexivity. }
  repeat split; [exact R|]. exact (@InputToCommands_stops r args _ _ R).
Qed.

End Extraction.

(** ** The input [null], however it is cut into chunks *)

Lemma prefix_of_null (b t : string) :
  b ++ t = "null" ->
  b = "" \/ b = "n" \/ b = "nu" \/ b = "nul" \/ (b = "null" /\ t = "").
Proof.
  intros H.
  destruct b as [|c1 [|c2 [|c3 [|c4 [|c5 b]]]]]; simpl in H;
    inversion H; subst; tauto.
Qed.

Lemma append_assoc (a b c : string) : (a ++ b) ++ c = a ++ b ++ c.
Proof. induction a as [|x a IH]; simpl; [reflexivity | now rewrite IH]. Qed.

Lemma peek_null (chunks : list string) (b : string) :
  b ++ text_of chunks = "null" ->
  exists b' chunks',
    peek b chunks = (Some "n"%char, b', chunks')
    /\ b' ++ text_of chunks' = "null".
Proof.
  revert b; induction chunks as [|ch chunks IH]; intros b H.
  - simpl in H. rewrite append_empty in H. subst b.
    exists "null", []. split; reflexivity.
  - cbn [text_of fold_right] in H. fold (text_of chunks) in H.
    destruct (prefix_of_null _ _ H) as [-> | [-> | [-> | [-> | [-> _]]]]];
      try (eexists _, _; split; [reflexivity | exact H]).
    cbn [peek json.skip_space]. apply IH. exact H.
Qed.

Section NullInput.

Context {rt : Runtime}.

Lemma readValue_null (chunks : list string) (b : string) :
  b ++ text_of chunks = "null" ->
  readValue b chunks EOF = (VRead json.RNull "", "null", []).
Proof.
  revert b; induction chunks as [|ch chunks IH]; intros b H.
  - simpl in H. rewrite append_empty in H. subst b. reflexivity.
  - cbn [text_of fold_right] in H. fold (text_of chunks) in H.
    assert (G : readValue (b ++ ch) chunks EOF = (VRead json.RNull "", "null", [])).
    { apply IH. now rewrite append_assoc. }
    destruct (prefix_of_null _ _ H) as [-> | [-> | [-> | [-> | [-> _]]]]];
      exact G.
Qed.

Lemma readData_null (chunks : list string) (e : bool) :
  text_of chunks = "null" -> readData (chunked chunks) e = Some (Ok []).
Proof.
  intros H.
  destruct (peek_null chunks "" H) as (b' & chunks' & P & H').
  pose proof (readValue_null chunks' b' H') as V.
  assert (T : turn (NewDecoder (chunked chunks)) e []
              = Next (NewDecoder (chunked [])) []).
  { unfold turn, More, Decode. cbn [NewDecoder chunked buf src pending ending].
    rewrite P. cbn [negb Ascii.eqb Bool.eqb andb].
    cbn [buf src pending ending]. rewrite V. reflexivity. }
  unfold readData. destruct chunks as [|ch chunks]; [discriminate H|].
  cbn [reader_size chunks_size chunked pending fold_right ProcessLoop].
  change (NewDecoder {| pending := ch :: chunks; ending := EOF |})
    with (NewDecoder (chunked (ch :: chunks))).
  rewrite T. reflexivity.
Qed.

End NullInput.

(** ** Loops that may stop early *)

Lemma mapM_Forall2 (A B : Type) (f : A -> result B) (l : list A) (m : list B) :
  mapM f l = Ok m -> Forall2 (fun a b => f a = Ok b) l m.
Proof.
  revert m; induction l as [|a l IH]; intros m H; simpl in H.
  - inversion H; constructor.
  - destruct (f a) as [b| | |] eqn:E; try discriminate H. simpl in H.
    destruct (mapM f l) as [bs| | |]; try discriminate H. simpl in H.
    inversion H; subst. constructor; [exact E | apply IH; reflexivity].
Qed.

Lemma mapM_defined (A B : Type) (f : A -> result B) (l : list A) :
  (forall a, In a l -> exists b, f a = Ok b) -> exists m, mapM f l = Ok m.
Proof.
  induction l as [|a l IH]; intros H; simpl.
  - now exists [].
  - destruct (H a (or_introl eq_refl)) as [b ->].
    destruct IH as [bs ->]; [intros; apply H; now right|].
    simpl. now exists (b :: bs).
Qed.

Lemma Forall2_length_eq (A B : Type) (P : A -> B -> Prop) (l : list A) (m : list B) :
  Forall2 P l m -> List.length m = List.length l.
Proof. induction 1; simpl; congruence. Qed.

Lemma Forall2_Forall_r (A B : Type) (P : A -> B -> Prop) (Q : B -> Prop)
      (l : list A) (m : list B) :
  Forall2 P l m -> (forall a b, P a b -> Q b) -> Forall Q m.
Proof. induction 1; intros H'; constructor; eauto. Qed.

Lemma bind_returns_or_panics (A B : Type) (r : result A) (k : A -> result B) :
  returns_or_panics r -> (forall a, returns_or_panics (k a)) ->
  returns_or_panics (bind r k).
Proof. destruct r; simpl; auto. Qed.

Lemma mapM_returns_or_panics (A B : Type) (f : A -> result B) (l : list A) :
  (forall a, returns_or_panics (f a)) -> returns_or_panics (mapM f l).
Proof.
  intros H. induction l as [|a l IH]; simpl; [exact I|].
  apply bind_returns_or_panics; [apply H|]. intros b.
  apply bind_returns_or_panics; [exact IH|]. intros bs. exact I.
Qed.

Lemma Expand_loop_returns_or_panics (mapping : string -> result string)
      (n : nat) (s : string) :
  (forall name, returns_or_panics (mapping name)) ->
  returns_or_panics (os.Expand_loop n s mapping).
Proof.
  intros H. revert s; induction n as [|n IH]; intros s; [exact I|].
  destruct s as [|c tl]; [exact I|]. cbn [os.Expand_loop].
  destruct (Ascii.eqb c "$" && negb (tl =? "")).
  - destruct (os.getShellName tl) as [name w].
    destruct (name =? "").
    + destruct (0 <? w)%nat; [apply IH|].
      apply bind_returns_or_panics; [apply IH | intros; exact I].
    + apply bind_returns_or_panics; [apply H|]. intros v.
      apply bind_returns_or_panics; [apply IH | intros; exact I].
  - apply bind_returns_or_panics; [apply IH | intros; exact I].
Qed.

Section Matrix.

Context {rt : Runtime}.

(** A reference with a position other than 0 is always answered. *)
Lemma dataLookup_answers (data : list string) (s : string) :
  fst (parseTransform s) <> 0%Z -> exists v, dataLookup data s = Ok v.
Proof.
  unfold dataLookup. destruct (parseTransform s) as [pos q]. cbn [fst]. intros H.
  destruct (pos >? Z.of_nat (List.length data))%Z eqn:E1; [now eexists|].
  destruct (pos <? 0)%Z eqn:E2; [now eexists|].
  rewrite Z.gtb_ltb in E1. apply Z.ltb_ge in E1, E2. cbn [orb].
  unfold index. destruct (pos - 1 <? 0)%Z eqn:E3; [apply Z.ltb_lt in E3; lia|].
  destruct (nth_error data (Z.to_nat (pos - 1))) as [item|] eqn:E4.
  - cbn. destruct (q =? ""); now eexists.
  - apply nth_error_None in E4. lia.
Qed.

Lemma transform_returns_or_panics (data : list string) (arg : string) :
  returns_or_panics (transform data arg).
Proof.
  unfold transform, os.Expand. apply Expand_loop_returns_or_panics.
  intros name. unfold dataLookup. destruct (parseTransform name) as [pos q].
  destruct ((pos >? Z.of_nat (List.length data))%Z || (pos <? 0)%Z); [exact I|].
  unfold index. destruct (pos - 1 <? 0)%Z; [exact I|].
  destruct (nth_error data (Z.to_nat (pos - 1))); [|exact I].
  cbn. destruct (q =? ""); exact I.
Qed.

(** Once [readData] has returned its rows, [InputToCommands] returns a
    matrix unless an expansion panics. *)
Lemma InputToCommands_returns_or_panics (r : Reader) (e : bool)
      (args : list string) (data : rows) :
  readData r e = Some (Ok data) ->
  exists res, InputToCommands r args e = Some res /\ returns_or_panics res.
Proof.
  intros H. unfold InputToCommands. rewrite H. eexists. split; [reflexivity|].
  cbn [bind]. destruct (List.length data =? 0)%nat; [exact I|].
  apply mapM_returns_or_panics. intros row.
  apply mapM_returns_or_panics. intros arg. apply transform_returns_or_panics.
Qed.

(** C9. For a stream that is not empty, a matrix that [InputToCommands]
    returns has one row for each record, in the order of the records, and
    each row has one entry for each template, in the order of the templates:
    the expansion of that template against that record. A matrix is
    returned whenever every expansion returns. *)
Theorem rows_follow_records (r : Reader) (e : bool) (args : list string) (data : rows) :
  readData r e = Some (Ok data) ->
  data <> [] ->
  (forall m,
      InputToCommands r args e = Some (Ok m) ->
      List.length m = List.length data
      /\ Forall (fun row => List.length row = List.length args) m
      /\ Forall2 (fun record row =>
                    Forall2 (fun arg cell => transform record arg = Ok cell) args row)
           data m)
  /\ ((forall record arg, In record data -> In arg args ->
                          exists cell, transform record arg = Ok cell) ->
      exists m, InputToCommands r args e = Some (Ok m)).
Proof.
  intros HR Hne. unfold InputToCommands. rewrite HR. cbn [bind].
  destruct data as [|record data]; [congruence|]. cbn [List.length Nat.eqb].
  split.
  - intros m H.
    assert (H' : mapM (fun row => mapM (fun arg => transform row arg) args)
                   (record :: data) = Ok m) by congruence.
    clear H. apply mapM_Forall2 in H'.
    assert (F : Forall2 (fun record row =>
                           Forall2 (fun arg cell => transform record arg = Ok cell)
                             args row) (record :: data) m).
    { eapply Forall2_impl; [|exact H']. intros a b Hab.
      now apply mapM_Forall2 in Hab. }
    repeat split; [now apply Forall2_length_eq in F| |exact F].
    eapply Forall2_Forall_r; [exact F|].
    intros a b Hab. now apply Forall2_length_eq in Hab.
  - intros H.
    destruct (@mapM_defined _ _ (fun row => mapM (fun arg => transform row arg) args)
                (record :: data)) as [m Hm].
    + intros a Ha. apply mapM_defined. intros arg Harg. now apply H.
    + exists m. now rewrite Hm.
Qed.

(** At an object [Search] looks the next name up. *)
Lemma Search_member (m : list (string * value)) (target : string)
      (hierarchy : list string) :
  Search (Map m) (target :: hierarchy)
  = match map_lookup target m with
    | Some v => Search v hierarchy
    | None => None
    end.
Proof.
  cbn [Search]. induction m as [|[k v] m IH]; [reflexivity|].
  cbn [map_lookup]. destruct (target =? k); [reflexivity | exact IH].
Qed.

(** C6. [jsonQuery] answers [<nil>] when the field is not JSON text and when
    the path leads nowhere in it. *)
Theorem jsonQuery_nil (data query : string) :
  ParseJSON data = None
  \/ (exists v, ParseJSON data = Some v /\ Path v query = None) ->
  jsonQuery data query = "<nil>".
Proof.
  unfold jsonQuery. intros [-> | (v & -> & ->)]; reflexivity.
Qed.

(** C8. [truncatedValue] returns the text of a value as it is when it has at
    most 512 bytes, and otherwise its first 512 bytes, quoted, followed by
    ["...\n[Value truncated]"]. *)
Theorem truncatedValue_spec (i : value) :
  ((String.length (Sprint i) <= 512)%nat -> truncatedValue i = Sprint i)
  /\ ((512 < String.length (Sprint i))%nat ->
      exists head tail,
        Sprint i = head ++ tail
        /\ String.length head = 512%nat
        /\ truncatedValue i
           = Quote head ++ "..." ++ String (chr 10) "[Value truncated]").
Proof.
  unfold truncatedValue, truncationLength, truncation_mark. split; intros H.
  - destruct (512 <? String.length (Sprint i))%nat eqn:E; [|reflexivity].
    apply Nat.ltb_lt in E. lia.
  - destruct (512 <? String.length (Sprint i))%nat eqn:E.
    + exists (take 512 (Sprint i)), (drop 512 (Sprint i)).
      repeat split; [now rewrite take_drop | rewrite length_take; lia].
    + apply Nat.ltb_ge in E. lia.
Qed.

(** C10. A decoded [null] adds no row and is no error: the loop goes on as
    after a syntax error, with a row for each word left in the buffer of
    the decoder and none for [null] itself. On the input [null] alone,
    in whatever chunks it is read, [readData] returns no row and
    [InputToCommands] returns the arguments as they are. *)
Theorem null_is_dropped :
  (forall (r : Reader) (e : bool) (dec dec1 dec2 : Decoder) (data : rows)
          (toks : list string),
      at_loop_head r e dec data ->
      More dec = (true, dec1) ->
      Decode dec1 = (DValue Nil, dec2) ->
      bufio.ScanWords (Buffered dec2) = (toks, None) ->
      at_loop_head r e (NewDecoder (src dec2))
        (data ++ List.map (fun t => [t]) toks)%list)
  /\ (forall (chunks : list string) (e : bool) (args : list string),
         text_of chunks = "null" ->
         readData (chunked chunks) e = Some (Ok [])
         /\ InputToCommands (chunked chunks) args e = Some (Ok [args])).
Proof.
  split.
  - intros r e dec dec1 dec2 data toks Hh HM HD HW.
    apply (head_next Hh). rewrite (@turn_decoded _ _ _ _ _ e data HM HD).
    cbn zeta. rewrite HW. reflexivity.
  - intros chunks e args H. unfold InputToCommands.
    rewrite (readData_null chunks e H). split; reflexivity.
Qed.

End Matrix.

(** ** The tests of the repository ([transform_test.go]) *)

Section Tests.

Example test_empty_data :
  run (NewBufferString "") ["a b $1"] false = Some (Ok [["a b $1"]]).
Proof. reflexivity. Qed.

Example test_single_string :
  run (NewBufferString "c") ["a b $1"] false = Some (Ok [["a b c"]]).
Proof. reflexivity. Qed.

Example test_single_json_object :
  run (NewBufferString (js "{'c':'d'}")) ["a b $1"] false
  = Some (Ok [["a b " ++ js "{'c':'d'}"]]).
Proof. reflexivity. Qed.

Example test_multiple_strings :
  run (NewBufferString "c d") ["a b $1"] false = Some (Ok [["a b c"]; ["a b d"]]).
Proof. reflexivity. Qed.

Example test_multiple_json_objects :
  run (NewBufferString (js "{'c':'d'} {'e':'f'}")) ["a b $1"] false
  = Some (Ok [["a b " ++ js "{'c':'d'}"]; ["a b " ++ js "{'e':'f'}"]]).
Proof. reflexivity. Qed.

Example test_string_rows :
  run (NewBufferString ("c" ++ newline ++ "d")) ["a b $1"] false
  = Some (Ok [["a b c"]; ["a b d"]]).
Proof. reflexivity. Qed.

Example test_rows_and_fields :
  run (NewBufferString (js "{'x':'y'}" ++ newline ++ js "{'x':'z'}"))
    ["a b ${1.x}"] false
  = Some (Ok [["a b y"]; ["a b z"]]).
Proof. reflexivity. Qed.

Example test_invalid_json_field :
  run (NewBufferString (js "{'c':'d'}" ++ newline ++ js "{'e':'f'}"))
    ["a b ${1.zzz}"] false
  = Some (Ok [["a b <nil>"]; ["a b <nil>"]]).
Proof. reflexivity. Qed.

Example test_invalid_positional_reference :
  run (NewBufferString (js "{'c':'d'}" ++ newline ++ js "{'e':'f'}"))
    ["a b $3 ${3.zzz}"] false
  = Some (Ok [["a b <nil> <nil>"]; ["a b <nil> <nil>"]]).
Proof. reflexivity. Qed.

Example test_multiline_json :
  run (NewBufferString
         (js "{" ++ newline ++ js "	'a':'c'," ++ newline ++ js "	'b':'d'"
             ++ newline ++ "}"))
    ["a b ${1.a} ${1.b}"] false
  = Some (Ok [["a b c d"]]).
Proof. reflexivity. Qed.

Example test_array_explode :
  run (NewBufferString (js "[{'a':'c'},{'a':'d'}]")) ["a b ${1.a} $1"] true
  = Some (Ok [["a b c " ++ js "{'a':'c'}"]; ["a b d " ++ js "{'a':'d'}"]]).
Proof. reflexivity. Qed.

Example test_array_no_explode :
  run (NewBufferString (js "[{'a':'c'},{'a':'d'}]")) ["a b ${1.a} ${1}"] false
  = Some (Ok [["a b [c d] " ++ js "[{'a':'c'},{'a':'d'}]"]]).
Proof. reflexivity. Qed.

Example test_bad_positional_value :
  run (NewBufferString (js "{'a':'b'}")) ["$z"] false = Some (Ok [["<nil>"]]).
Proof. reflexivity. Qed.

Example test_query_of_non_json :
  run (NewBufferString "a") ["$z"] false = Some (Ok [["<nil>"]]).
Proof. reflexivity. Qed.

Example test_truncate_short :
  truncatedValue (rt:=sample_runtime) (Str "abc") = "abc".
Proof. reflexivity. Qed.

Example test_truncate_long :
  truncatedValue (rt:=sample_runtime) (Str (repeat_byte "a" 1000))
  = String dquote (repeat_byte "a" 512) ++ String dquote ""
      ++ "..." ++ newline ++ "[Value truncated]".
Proof. vm_compute. reflexivity. Qed.

End Tests.

(** ** The theorems at sample inputs *)

Lemma pair_eq_fst (A B : Type) (p : A * B) (a : A) :
  fst p = a -> p = (a, snd p).
Proof. destruct p; simpl; intros ->; reflexivity. Qed.

Lemma pair_eq_snd (A B : Type) (p : A * B) (b : B) :
  snd p = b -> p = (fst p, b).
Proof. destruct p; simpl; intros ->; reflexivity. Qed.

(** C3: the claim (the scanner's error is returned to the caller, the
    process is not ended) fails on a string literal of more than 64 KiB
    that a control byte breaks off. The decoder reports a syntax error, the
    scanner finds no end of word in its window and reports
    [ErrTooLong], and [readData] ends the process. *)
Lemma scan_error_not_returned :
  fst (Decode (rt:=sample_runtime)
         (snd (More (NewDecoder (NewBufferString long_broken_literal)))))
  = DSyntaxError
  /\ snd (bufio.ScanWords
            (Buffered
               (snd (Decode (rt:=sample_runtime)
                       (snd (More (NewDecoder
                                     (NewBufferString long_broken_literal))))))))
     = Some bufio.ErrTooLong
  /\ readData (rt:=sample_runtime) (NewBufferString long_broken_literal) false
     = Some (Fatal "reading standard input: bufio.Scanner: token too long")
  /\ ~ (exists x,
           readData (rt:=sample_runtime) (NewBufferString long_broken_literal) false
           = Some (Err x)).
Proof.
  assert (R : readData (rt:=sample_runtime)
                (NewBufferString long_broken_literal) false
              = Some (Fatal "reading standard input: bufio.Scanner: token too long")).
  { vm_compute. reflexivity. }
  split; [|split; [|split]].
  - vm_compute. reflexivity.
  - vm_compute. reflexivity.
  - exact R.
  - intros [x H]. rewrite R in H. discriminate H.
Qed.

(** C8: the claim counts characters, the code counts bytes. A text of 171
    euro signs has 171 characters, fewer than 512, and 513 bytes:
    [truncatedValue] does not return it as it is, it keeps 512 bytes, which
    end inside the last character. *)
Lemma truncatedValue_counts_bytes :
  utf8.RuneCountInString (euros 171) = 171%nat
  /\ String.length (euros 171) = 513%nat
  /\ truncatedValue (rt:=sample_runtime) (Str (euros 171)) <> euros 171
  /\ truncatedValue (rt:=sample_runtime) (Str (euros 171))
     = @Quote sample_runtime
         (euros 170 ++ String (chr 226) (String (chr 130) ""))
         ++ "..." ++ String (chr 10) "[Value truncated]".
Proof.
  split; [vm_compute; reflexivity|].
  split; [vm_compute; reflexivity|].
  split; [|vm_compute; reflexivity].
  intros H. apply (f_equal String.length) in H. vm_compute in H.
  discriminate H.
Qed.

Lemma scan_error_exits_witness :
  readData (rt:=sample_runtime) (NewBufferString long_broken_literal) true
  = Some (Fatal ("reading standard input: " ++ bufio.ErrTooLong))
  /\ InputToCommands (rt:=sample_runtime)
       (NewBufferString long_broken_literal) ["a b $1"] true
     = Some (Fatal ("reading standard input: " ++ bufio.ErrTooLong)).
Proof.
  pose (r := NewBufferString long_broken_literal).
  pose (dec1 := snd (More (NewDecoder r))).
  pose (dec2 := snd (Decode (rt:=sample_runtime) dec1)).
  apply (@scan_error_exits sample_runtime r true ["a b $1"]
           (NewDecoder r) dec1 dec2 [] DSyntaxError
           (fst (bufio.ScanWords (Buffered dec2))) bufio.ErrTooLong).
  - apply head_first.
  - apply pair_eq_fst. vm_compute. reflexivity.
  - apply pair_eq_fst. vm_compute. reflexivity.
  - left. reflexivity.
  - apply pair_eq_snd. vm_compute. reflexivity.
Defined.

Lemma explode_array_witness :
  (at_loop_head (rt:=sample_runtime)
     (NewBufferString (js "[{'a':'c'},{'a':'d'}]")) true
     {| buf := ""; src := {| pending := []; ending := EOF |} |}
     [[js "{'a':'c'}"]; [js "{'a':'d'}"]]
   /\ readData (rt:=sample_runtime)
        (NewBufferString (js "[{'a':'c'},{'a':'d'}]")) true
      = Some (Ok [[js "{'a':'c'}"]; [js "{'a':'d'}"]])
   /\ (forall final,
          readData (rt:=sample_runtime)
            (NewBufferString (js "[{'a':'c'},{'a':'d'}]")) true = Some (Ok final) ->
          exists more, final = ([[js "{'a':'c'}"]; [js "{'a':'d'}"]] ++ more)%list))
  /\ (readData (rt:=sample_runtime) (NewBufferString (js "[{'a':'c'},'d']")) true
      = Some (Err InvalidPipedData)
      /\ InputToCommands (rt:=sample_runtime)
           (NewBufferString (js "[{'a':'c'},'d']")) ["a b $1"] true
         = Some (Err InvalidPipedData)
      /\ Error InvalidPipedData = "invalid piped data").
Proof.
  split.
  - pose proof (@explode_array sample_runtime
                  (NewBufferString (js "[{'a':'c'},{'a':'d'}]")) ["a b $1"]
                  _ _ _ [] [Map [("a", Str "c")]; Map [("a", Str "d")]]
                  (head_first _ _) eq_refl eq_refl) as H.
    hnf in H. destruct H as (H1 & _ & H3 & H4).
    split; [exact H1|]. split; [|exact H4].
    exact (H3 _ eq_refl).
  - exact (@explode_array sample_runtime
             (NewBufferString (js "[{'a':'c'},'d']")) ["a b $1"]
             _ _ _ [] [Map [("a", Str "c")]; Str "d"]
             (head_first _ _) eq_refl eq_refl).
Defined.

Lemma empty_stream_passthrough_witness :
  InputToCommands (rt:=sample_runtime) (NewBufferString "") ["a b $1"; "x"] true
  = Some (Ok [["a b $1"; "x"]]).
Proof.
  apply (@empty_stream_passthrough sample_runtime). reflexivity.
Defined.

Lemma jsonQuery_nil_witness :
  jsonQuery (rt:=sample_runtime) "c" "zzz" = "<nil>"
  /\ jsonQuery (rt:=sample_runtime) (js "{'c':'d'}") "zzz" = "<nil>".
Proof.
  split.
  - apply (@jsonQuery_nil sample_runtime). left. reflexivity.
  - apply (@jsonQuery_nil sample_runtime). right.
    exists (Map [("c", Str "d")]). split; reflexivity.
Defined.

Lemma top_level_scalar_witness :
  readData (rt:=sample_runtime) (NewBufferString (js "'abc'")) false
  = Some (Err (UnexpectedType "string" "abc"))
  /\ InputToCommands (rt:=sample_runtime) (NewBufferString (js "'abc'"))
       ["a b $1"] false
     = Some (Err (UnexpectedType "string" "abc"))
  /\ Error (UnexpectedType "string" "abc") = "unexpected type (string): abc".
Proof.
  exact (@top_level_scalar sample_runtime (NewBufferString (js "'abc'")) false
           ["a b $1"] _ _ _ [] (Str "abc") (head_first _ _)
           eq_refl eq_refl eq_refl).
Defined.

Lemma truncatedValue_spec_witness :
  truncatedValue (rt:=sample_runtime) (Str "abc") = "abc"
  /\ exists head tail,
       repeat_byte "a" 1000 = head ++ tail
       /\ String.length head = 512%nat
       /\ truncatedValue (rt:=sample_runtime) (Str (repeat_byte "a" 1000))
          = @Quote sample_runtime head
              ++ "..." ++ String (chr 10) "[Value truncated]".
Proof.
  split.
  - apply (proj1 (@truncatedValue_spec sample_runtime (Str "abc"))).
    simpl. lia.
  - apply (proj2 (@truncatedValue_spec sample_runtime
                    (Str (repeat_byte "a" 1000)))).
    vm_compute. lia.
Defined.

Lemma rows_follow_records_witness :
  (List.length [["a b c"; "c"]; ["a b d"; "d"]] = List.length [["c"]; ["d"]]
   /\ Forall (fun row => List.length row = List.length ["a b $1"; "${1}"])
        [["a b c"; "c"]; ["a b d"; "d"]]
   /\ Forall2 (fun record row =>
                 Forall2 (fun arg cell =>
                            transform (rt:=sample_runtime) record arg = Ok cell)
                   ["a b $1"; "${1}"] row)
        [["c"]; ["d"]] [["a b c"; "c"]; ["a b d"; "d"]])
  /\ exists m,
       InputToCommands (rt:=sample_runtime) (NewBufferString "c d")
         ["a b $1"; "${1}"] false = Some (Ok m).
Proof.
  pose proof (@rows_follow_records sample_runtime (NewBufferString "c d") false
                ["a b $1"; "${1}"] [["c"]; ["d"]] eq_refl
                ltac:(discriminate)) as [H1 H2].
  split.
  - apply H1. reflexivity.
  - apply H2. intros record arg [<- | [<- | []]] [<- | [<- | []]];
      eexists; reflexivity.
Defined.

Lemma null_is_dropped_witness :
  at_loop_head (rt:=sample_runtime) (NewBufferString "null c d") false
    {| buf := ""; src := {| pending := []; ending := EOF |} |}
    [["c"]; ["d"]]
  /\ readData (rt:=sample_runtime) (chunked ["nu"; "ll"]) false = Some (Ok [])
  /\ InputToCommands (rt:=sample_runtime) (chunked ["nu"; "ll"]) ["a b $1"] false
     = Some (Ok [["a b $1"]]).
Proof.
  split.
  - exact (proj1 (@null_is_dropped sample_runtime)
             (NewBufferString "null c d") false _ _ _ [] ["c"; "d"]
             (head_first _ _) eq_refl eq_refl eq_refl).
  - exact (proj2 (@null_is_dropped sample_runtime) ["nu"; "ll"] false ["a b $1"]
             eq_refl).
Defined.

(** * Further properties of the engine *)

Unset Implicit Arguments.

(** ** Templates *)

Lemma bind_bind (A B C : Type) (r : result A) (f : A -> result B) (g : B -> result C) :
  bind (bind r f) g = bind r (fun a => bind (f a) g).
Proof. destruct r; reflexivity. Qed.

Lemma indexByte_app_none (c : ascii) (s t : string) :
  indexByte c s = None ->
  indexByte c (s ++ String c t) = Some (String.length s).
Proof.
  induction s as [|d s IH]; simpl; intros H.
  - now rewrite Ascii.eqb_refl.
  - destruct (Ascii.eqb c d); [discriminate|].
    destruct (indexByte c s); [discriminate|]. now rewrite IH.
Qed.

Lemma take_app_length (s t : string) : take (String.length s) (s ++ t) = s.
Proof. induction s as [|c s IH]; simpl; [now destruct t | now rewrite IH]. Qed.

Lemma drop_app_length (s t : string) : drop (String.length s) (s ++ t) = t.
Proof. induction s as [|c s IH]; simpl; [reflexivity | exact IH]. Qed.

Lemma special_is_not_brace (c : ascii) :
  os.isShellSpecialVar c = true -> Ascii.eqb "}" c = false.
Proof.
  destruct c as [[] [] [] [] [] [] [] []]; vm_compute; intros H;
    try discriminate H; reflexivity.
Qed.

(** After an opening brace the name runs to the closing brace: the test for
    a one-byte special name changes nothing. *)
Lemma getShellName_brace (tl : string) :
  os.getShellName (String "{" tl) = os.scan_brace tl.
Proof.
  destruct tl as [|c1 [|c2 r]]; try reflexivity.
  destruct (Ascii.eqb c2 "}") eqn:E.
  - apply Ascii.eqb_eq in E. subst c2. cbn [os.getShellName].
    destruct (os.isShellSpecialVar c1) eqn:S; [|reflexivity].
    unfold os.scan_brace. cbn [indexByte].
    rewrite (special_is_not_brace _ S). reflexivity.
  - destruct c2 as [[] [] [] [] [] [] [] []];
      try reflexivity; discriminate E.
Qed.

Lemma getShellName_braced (name rest : string) :
  name <> "" ->
  indexByte "}" name = None ->
  os.getShellName (String "{" (name ++ String "}" rest))
  = (name, (String.length name + 2)%nat).
Proof.
  intros Hne Hb. rewrite getShellName_brace. unfold os.scan_brace.
  rewrite indexByte_app_none by exact Hb.
  destruct name as [|c name]; [congruence|].
  cbn [String.length]. f_equal.
  change (S (String.length name)) with (String.length (String c name)).
  apply take_app_length.
Qed.

Lemma drop_braced (name rest : string) :
  drop (String.length name + 2) (String "{" (name ++ String "}" rest)) = rest.
Proof.
  replace (String.length name + 2)%nat with (S (String.length (name ++ "}")))
    by (rewrite length_app; simpl; lia).
  cbn [drop].
  replace (name ++ String "}" rest) with ((name ++ "}") ++ rest)
    by (rewrite append_assoc; reflexivity).
  apply drop_app_length.
Qed.

Lemma Expand_loop_prefix (mapping : string -> result string) (pre s : string) (n : nat) :
  indexByte "$" pre = None ->
  os.Expand_loop (String.length pre + n) (pre ++ s) mapping
  = (r <- os.Expand_loop n s mapping ;; Ok (pre ++ r)).
Proof.
  induction pre as [|c pre IH]; intros H.
  - simpl. destruct (os.Expand_loop n s mapping); reflexivity.
  - cbn [indexByte] in H. cbn [String.length Nat.add append os.Expand_loop].
    rewrite (Ascii.eqb_sym c "$"). destruct (Ascii.eqb "$" c); [discriminate|].
    cbn [andb]. destruct (indexByte "$" pre) eqn:E; [discriminate|].
    rewrite (IH eq_refl). rewrite bind_bind. reflexivity.
Qed.

Lemma Expand_loop_braced (mapping : string -> result string) (n : nat)
      (name rest : string) :
  name <> "" ->
  indexByte "}" name = None ->
  os.Expand_loop (S n) (String "$" (String "{" (name ++ String "}" rest))) mapping
  = (v <- mapping name ;; r <- os.Expand_loop n rest mapping ;; Ok (v ++ r)).
Proof.
  intros Hne Hb. cbn [os.Expand_loop].
  rewrite getShellName_braced by assumption. rewrite drop_braced.
  destruct name as [|c name]; [congruence|]. reflexivity.
Qed.

(** [os.Expand] on a text without [$] followed by a braced name. *)
Lemma Expand_braced (mapping : string -> result string) (pre name rest : string) :
  indexByte "$" pre = None ->
  name <> "" ->
  indexByte "}" name = None ->
  os.Expand (pre ++ String "$" (String "{" (name ++ String "}" rest))) mapping
  = (v <- mapping name ;; r <- os.Expand rest mapping ;; Ok (pre ++ v ++ r)).
Proof.
  intros Hp Hne Hb. unfold os.Expand. rewrite length_app.
  rewrite Expand_loop_prefix by exact Hp.
  cbn [String.length]. rewrite Expand_loop_braced by assumption.
  rewrite (@Expand_loop_fuel mapping
             (S (String.length (name ++ String "}" rest)))
             (String.length rest) rest).
  - destruct (mapping name); try reflexivity. cbn [bind].
    destruct (os.Expand_loop (String.length rest) rest mapping); reflexivity.
  - rewrite length_app. simpl. lia.
  - lia.
Qed.

(** ** References *)

Lemma digits_have_no (c : ascii) (s : string) (acc v : Z) :
  isDigit c = false ->
  strconv.digits_value acc s = Some v -> indexByte c s = None.
Proof.
  intros Hc. revert acc; induction s as [|d s IH]; intros acc H; [reflexivity|].
  cbn [strconv.digits_value] in H. cbn [indexByte].
  destruct (isDigit d) eqn:Hd; [|discriminate].
  destruct (Ascii.eqb c d) eqn:E.
  - apply Ascii.eqb_eq in E. congruence.
  - now rewrite (IH _ H).
Qed.

(** What [Atoi] accepts is not empty and holds a sign and digits only. *)
Lemma Atoi_text (c : ascii) (s : string) (v : Z) :
  isDigit c = false -> c <> "-"%char -> c <> "+"%char ->
  strconv.Atoi s = Some v -> s <> "" /\ indexByte c s = None.
Proof.
  intros Hc Hm Hp H. unfold strconv.Atoi in H.
  assert (P : forall body n,
             strconv.parse_digits body = Some n ->
             body <> "" /\ indexByte c body = None).
  { intros body n Hb. destruct body as [|d body]; [discriminate|].
    split; [discriminate|]. exact (digits_have_no c _ _ _ Hc Hb). }
  destruct s as [|d s]; [discriminate|]. split; [discriminate|].
  destruct (Ascii.eqb d "-") eqn:E1; [|destruct (Ascii.eqb d "+") eqn:E2].
  - apply Ascii.eqb_eq in E1. subst d.
    destruct (strconv.parse_digits s) as [n|] eqn:Hs; [|discriminate].
    cbn [indexByte]. destruct (Ascii.eqb c "-") eqn:E;
      [apply Ascii.eqb_eq in E; congruence|].
    destruct s as [|d' s']; [discriminate|].
    now rewrite (proj2 (P _ _ Hs)).
  - apply Ascii.eqb_eq in E2. subst d.
    destruct (strconv.parse_digits s) as [n|] eqn:Hs; [|discriminate].
    cbn [indexByte]. destruct (Ascii.eqb c "+") eqn:E;
      [apply Ascii.eqb_eq in E; congruence|].
    destruct s as [|d' s']; [discriminate|].
    now rewrite (proj2 (P _ _ Hs)).
  - assert (H' : match strconv.parse_digits (String d s) with
                 | Some n =>
                     if ((strconv.minInt <=? n) && (n <=? strconv.maxInt))%Z
                     then Some n else None
                 | None => None
                 end = Some v).
    { destruct d as [[] [] [] [] [] [] [] []];
        try discriminate E1; try discriminate E2; exact H. }
    destruct (strconv.parse_digits (String d s)) as [n|] eqn:Hs; [|discriminate].
    exact (proj2 (P _ _ Hs)).
Qed.

Section References.

Context {rt : Runtime}.

Lemma parseTransform_integer (s : string) (pos : Z) :
  strconv.Atoi s = Some pos -> parseTransform s = (pos, "").
Proof.
  intros H. unfold parseTransform, strings.SplitN2.
  destruct (Atoi_text "." s pos eq_refl) as [_ ->]; try discriminate; [exact H|].
  now rewrite H.
Qed.

Lemma parseTransform_dotted (p q : string) (pos : Z) :
  strconv.Atoi p = Some pos ->
  parseTransform (p ++ String "." q) = (pos, q).
Proof.
  intros H. unfold parseTransform, strings.SplitN2.
  destruct (Atoi_text "." p pos eq_refl) as [_ Hd]; try discriminate; [exact H|].
  rewrite indexByte_app_none by exact Hd.
  rewrite take_app_length. rewrite H.
  replace (drop (S (String.length p)) (p ++ String "." q)) with q; [reflexivity|].
  replace (S (String.length p)) with (String.length (p ++ ".")).
  - replace (p ++ String "." q) with ((p ++ ".") ++ q)
      by (rewrite append_assoc; reflexivity).
    now rewrite drop_app_length.
  - rewrite length_app. simpl. lia.
Qed.

End References.

Lemma indexByte_split (c : ascii) (s : string) (i : nat) :
  indexByte c s = Some i ->
  s = take i s ++ String c (drop (S i) s) /\ indexByte c (take i s) = None.
Proof.
  revert i; induction s as [|d s IH]; intros i H; [discriminate|].
  cbn [indexByte] in H. destruct (Ascii.eqb c d) eqn:E.
  - apply Ascii.eqb_eq in E. inversion H; subst. split; reflexivity.
  - destruct (indexByte c s) as [j|] eqn:Ei; [|discriminate].
    inversion H; subst. destruct (IH j eq_refl) as [H1 H2].
    cbn [take drop append indexByte]. rewrite E, H2. split; [|reflexivity].
    f_equal. exact H1.
Qed.

Lemma indexByte_app (c : ascii) (s t : string) :
  indexByte c s = None -> indexByte c t = None -> indexByte c (s ++ t) = None.
Proof.
  intros Hs Ht. induction s as [|d s IH]; [exact Ht|].
  cbn [indexByte append] in *. destruct (Ascii.eqb c d); [discriminate|].
  destruct (indexByte c s); [discriminate|]. now rewrite IH.
Qed.

Lemma Atoi_head (c : ascii) (s : string) (v : Z) :
  strconv.Atoi (String c s) = Some v ->
  isDigit c = true \/ c = "-"%char \/ c = "+"%char.
Proof.
  intros H. destruct (Ascii.eqb c "-") eqn:E1;
    [apply Ascii.eqb_eq in E1; tauto|].
  destruct (Ascii.eqb c "+") eqn:E2; [apply Ascii.eqb_eq in E2; tauto|].
  left. unfold strconv.Atoi in H.
  assert (H' : strconv.parse_digits (String c s) <> None).
  { destruct c as [[] [] [] [] [] [] [] []];
      try discriminate E1; try discriminate E2;
      destruct (strconv.parse_digits _); congruence. }
  cbn [strconv.parse_digits strconv.digits_value] in H'.
  destruct (isDigit c); congruence.
Qed.

Section Templates.

Context {rt : Runtime}.

(** X1. A template without [$] is returned as it is, whatever the
    record. *)
Theorem transform_plain_text (data : list string) (arg : string) :
  indexByte "$" arg = None -> transform data arg = Ok arg.
Proof.
  intros H. unfold transform, os.Expand. now apply Expand_loop_plain.
Qed.

(** X2. Expansion goes marker by marker: a template made of a text
    without [$], a braced marker [${name}] and a rest expands to the text,
    what [dataLookup] answers for [name], and the expansion of the rest. A
    panic of the lookup, or of the rest, is the outcome of the whole. *)
Theorem transform_braced_marker (data : list string) (pre name post : string) :
  indexByte "$" pre = None ->
  name <> "" ->
  indexByte "}" name = None ->
  transform data (pre ++ String "$" (String "{" (name ++ String "}" post)))
  = (v <- dataLookup data name ;;
     r <- transform data post ;;
     Ok (pre ++ v ++ r)).
Proof. intros Hp Hn Hb. unfold transform. now apply Expand_braced. Qed.

Lemma dataLookup_field (data : list string) (name query field : string) (pos : Z) :
  parseTransform name = (pos, query) ->
  (1 <= pos)%Z ->
  nth_error data (Z.to_nat (pos - 1)) = Some field ->
  dataLookup data name
  = Ok (if String.eqb query "" then field else jsonQuery field query).
Proof.
  intros HP H1 Hn. unfold dataLookup. rewrite HP.
  assert (L : (Z.to_nat (pos - 1) < List.length data)%nat).
  { apply nth_error_Some. congruence. }
  assert (E1 : (pos >? Z.of_nat (List.length data))%Z = false).
  { rewrite Z.gtb_ltb. apply Z.ltb_ge. lia. }
  assert (E2 : (pos <? 0)%Z = false) by (apply Z.ltb_ge; lia).
  rewrite E1, E2. cbn [orb]. unfold index.
  assert (E3 : (pos - 1 <? 0)%Z = false) by (apply Z.ltb_ge; lia).
  rewrite E3, Hn. cbn [bind]. destruct (query =? ""); reflexivity.
Qed.

(** X3. A braced marker that is an integer between 1 and the number of
    fields is replaced by that field as it is: what the field holds is not
    expanded again, whatever it is. *)
Theorem transform_field_verbatim (data : list string) (pre name post field : string)
        (pos : Z) :
  indexByte "$" pre = None ->
  strconv.Atoi name = Some pos ->
  (1 <= pos)%Z ->
  nth_error data (Z.to_nat (pos - 1)) = Some field ->
  transform data (pre ++ String "$" (String "{" (name ++ String "}" post)))
  = (r <- transform data post ;; Ok (pre ++ field ++ r)).
Proof.
  intros Hp Ha H1 Hn.
  destruct (Atoi_text "}" name pos eq_refl) as [Hne Hb]; try discriminate;
    [exact Ha|].
  unfold transform. rewrite Expand_braced by assumption.
  rewrite (dataLookup_field data name "" field pos
             (parseTransform_integer name pos Ha) H1 Hn).
  reflexivity.
Qed.

(** X4. A braced marker [${N.path}] with [N] between 1 and the number of
    fields is replaced by what [jsonQuery] answers for [path] in field
    [N]. *)
Theorem transform_field_query (data : list string)
        (pre number path post field : string) (pos : Z) :
  indexByte "$" pre = None ->
  strconv.Atoi number = Some pos ->
  path <> "" ->
  indexByte "}" path = None ->
  (1 <= pos)%Z ->
  nth_error data (Z.to_nat (pos - 1)) = Some field ->
  transform data
    (pre ++ String "$" (String "{" ((number ++ String "." path) ++ String "}" post)))
  = (r <- transform data post ;; Ok (pre ++ jsonQuery field path ++ r)).
Proof.
  intros Hp Ha Hq Hb H1 Hn.
  destruct (Atoi_text "}" number pos eq_refl) as [Hne Hbn]; try discriminate;
    [exact Ha|].
  unfold transform. rewrite Expand_braced; try assumption.
  - rewrite (dataLookup_field data _ path field pos
               (parseTransform_dotted number path pos Ha) H1 Hn).
    destruct path as [|c path]; [congruence|]. reflexivity.
  - destruct number; [congruence | discriminate].
  - apply indexByte_app; [exact Hbn|]. cbn [indexByte]. now rewrite Hb.
Qed.

(** X5. A braced marker whose position is below 0 or above the number
    of fields is replaced by [<nil>], and the rest of the template is
    expanded as usual. *)
Theorem transform_position_out_of_range (data : list string)
        (pre name post : string) :
  indexByte "$" pre = None ->
  name <> "" ->
  indexByte "}" name = None ->
  (fst (parseTransform name) < 0
   \/ Z.of_nat (List.length data) < fst (parseTransform name))%Z ->
  transform data (pre ++ String "$" (String "{" (name ++ String "}" post)))
  = (r <- transform data post ;; Ok (pre ++ "<nil>" ++ r)).
Proof.
  intros Hp Hne Hb Hr.
  unfold transform. rewrite Expand_braced by assumption.
  now rewrite dataLookup_out_of_range.
Qed.

(** X6. [parseTransform] takes a token apart in one of three ways: the
    whole token is an integer, which is the position, and there is no
    query; or the text before the first dot is an integer, the position,
    and the text after that dot is the query; or the text before the first
    dot (the whole token if it has no dot) is no integer, and then the
    position is 1 and the whole token is the query. *)
Theorem parseTransform_cases (s : string) :
  let (pos, query) := parseTransform s in
  (strconv.Atoi s = Some pos /\ query = "")
  \/ (exists number,
         s = number ++ String "." query
         /\ indexByte "." number = None
         /\ strconv.Atoi number = Some pos)
  \/ (pos = 1%Z /\ query = s
      /\ strconv.Atoi (hd "" (strings.SplitN2 s ".")) = None).
Proof.
  unfold parseTransform, strings.SplitN2.
  destruct (indexByte "." s) as [i|] eqn:E.
  - destruct (indexByte_split "." s i E) as [Hs Hn]. cbn [hd].
    destruct (strconv.Atoi (take i s)) as [pos|] eqn:A.
    + right; left. exists (take i s). auto.
    + right; right. auto.
  - cbn [hd]. destruct (strconv.Atoi s) as [pos|] eqn:A.
    + left. auto.
    + right; right. auto.
Qed.

Lemma parseTransform_name (c : ascii) (name : string) :
  isDigit c = false -> c <> "-"%char -> c <> "+"%char ->
  parseTransform (String c name) = (1%Z, String c name).
Proof.
  intros Hd Hm Hpl.
  assert (N : forall rest, strconv.Atoi (String c rest) = None).
  { intros rest. destruct (strconv.Atoi (String c rest)) as [v|] eqn:A;
      [|reflexivity].
    apply Atoi_head in A. destruct A as [A | [A | A]]; congruence. }
  unfold parseTransform, strings.SplitN2.
  destruct (indexByte "." (String c name)) as [[|i]|]; cbn [take].
  - reflexivity.
  - now rewrite N.
  - now rewrite N.
Qed.

(** X7. A braced marker that begins with neither a digit nor a sign is a
    query on the first field, dots included: [${user.id}] is what
    [jsonQuery] answers for [user.id] in field 1. *)
Theorem transform_name_queries_first_field (field : string) (more : list string)
        (pre post : string) (c : ascii) (name : string) :
  indexByte "$" pre = None ->
  isDigit c = false -> c <> "-"%char -> c <> "+"%char ->
  indexByte "}" (String c name) = None ->
  transform (field :: more)
    (pre ++ String "$" (String "{" (String c name ++ String "}" post)))
  = (r <- transform (field :: more) post ;;
     Ok (pre ++ jsonQuery field (String c name) ++ r)).
Proof.
  intros Hp Hd Hm Hpl Hb.
  unfold transform. rewrite Expand_braced; try assumption; [|discriminate].
  assert (P : parseTransform (String c name) = (1%Z, String c name))
    by now apply parseTransform_name.
  rewrite (dataLookup_field (field :: more) _ (String c name) field 1 P);
    [reflexivity | lia | reflexivity].
Qed.

End Templates.

(** ** The read loop *)

Lemma skip_space_first (s : string) (c : ascii) (tl : string) :
  json.skip_space s = String c tl -> json.isSpace c = false.
Proof.
  induction s as [|d s IH]; cbn [json.skip_space]; [discriminate|].
  destruct (json.isSpace d) eqn:E; [exact IH|].
  intros H; inversion H; subst; exact E.
Qed.

Lemma skip_space_app (a b : string) :
  json.skip_space (a ++ b)
  = match json.skip_space a with
    | EmptyString => json.skip_space b
    | String c tl => String c tl ++ b
    end.
Proof.
  induction a as [|d a IH]; cbn [append json.skip_space].
  - now destruct (json.skip_space b).
  - destruct (json.isSpace d); [exact IH | reflexivity].
Qed.

(** [peek] finds the first byte of the input that is no white space. *)
Lemma peek_first (chunks : list string) (b : string) :
  fst (fst (peek b chunks))
  = match json.skip_space (b ++ text_of chunks) with
    | EmptyString => None
    | String c _ => Some c
    end.
Proof.
  revert b; induction chunks as [|ch chunks IH]; intros b.
  - cbn [text_of fold_right peek]. rewrite append_empty.
    now destruct (json.skip_space b).
  - cbn [text_of fold_right peek]. fold (text_of chunks).
    rewrite skip_space_app.
    destruct (json.skip_space b) as [|c tl] eqn:E; [|reflexivity].
    rewrite IH. rewrite append_assoc. rewrite skip_space_app. now rewrite E.
Qed.

Lemma scan_words_error (n : nat) (data : string) (toks : list string) (err : string) :
  bufio.scan_words n data = (toks, Some err) -> err = bufio.ErrTooLong.
Proof.
  revert data toks; induction n as [|n IH]; intros data toks H; [discriminate|].
  cbn [bufio.scan_words] in H.
  destruct (bufio.skip_leading _ data) as [|c w]; [discriminate|].
  destruct (bufio.find_space _ 0 _) as [[i next]|].
  - destruct (bufio.scan_words n _) as [toks' err'] eqn:E.
    inversion H; subst. exact (IH _ _ E).
  - destruct (_ <? _)%nat; inversion H. reflexivity.
Qed.

Lemma scan_words_short (n : nat) (data : string) :
  (String.length data < bufio.MaxScanTokenSize)%nat ->
  snd (bufio.scan_words n data) = None.
Proof.
  revert data; induction n as [|n IH]; intros data H; [reflexivity|].
  cbn [bufio.scan_words].
  pose proof (skip_leading_le (String.length data) data) as L.
  destruct (bufio.skip_leading _ data) as [|c w]; [reflexivity|].
  destruct (bufio.find_space _ 0 _) as [[i next]|].
  - specialize (IH (drop next (String c w))).
    destruct (bufio.scan_words n _) as [toks err]. cbn [snd] in *.
    apply IH. rewrite length_drop. lia.
  - assert (E : (String.length (String c w) <? bufio.MaxScanTokenSize)%nat = true)
      by (apply Nat.ltb_lt; lia).
    rewrite E. reflexivity.
Qed.

Section ReadLoop.

Context {rt : Runtime}.

(** A property of the rows and the decoder that every turn keeps holds of
    what the loop returns. *)
Lemma ProcessLoop_invariant (e : bool) (P : Decoder -> rows -> Prop)
      (Q : result rows -> Prop) :
  (forall dec data,
      P dec data ->
      match turn dec e data with
      | Stop res => Q res
      | Next dec' data' => P dec' data'
      end) ->
  forall fuel dec data res,
    P dec data -> ProcessLoop fuel dec e data = Some res -> Q res.
Proof.
  intros Step. induction fuel as [|fuel IH]; intros dec data res HP H;
    [discriminate|].
  cbn [ProcessLoop] in H. specialize (Step dec data HP).
  destruct (turn dec e data) as [res'|dec' data'].
  - inversion H; subst. exact Step.
  - exact (IH _ _ _ Step H).
Qed.

Lemma More_src (dec : Decoder) :
  ending (src (snd (More dec))) = ending (src dec).
Proof.
  unfold More. destruct (peek _ _) as [[c b] chunks].
  destruct c; reflexivity.
Qed.

Lemma Decode_src (dec : Decoder) :
  ending (src (snd (Decode dec))) = ending (src dec).
Proof.
  unfold Decode. destruct (readValue _ _ _) as [[p b] chunks].
  destruct p as [v rest| |].
  - destruct (interp v); reflexivity.
  - reflexivity.
  - destruct (ending (src dec)); reflexivity.
Qed.

Lemma Decode_error (dec : Decoder) (x : error) :
  fst (Decode dec) = DError x ->
  match x with
  | UnexpectedEOF | UnmarshalTypeError _ => True
  | ReadError msg => ending (src dec) = Broken msg
  | _ => False
  end.
Proof.
  unfold Decode. destruct (readValue _ _ _) as [[p b] chunks].
  destruct p as [v rest| |].
  - destruct (interp v); cbn [fst]; intros H; inversion H. exact I.
  - discriminate.
  - destruct (ending (src dec)) as [|msg]; [destruct (nonSpace b)|];
      cbn [fst]; intros H; inversion H; [exact I | reflexivity].
Qed.

(** X8. Every row [readData] returns has exactly one field: only
    position 1 is ever in range for the rows [InputToCommands] expands. *)
Theorem readData_rows_have_one_field (r : Reader) (e : bool) (data : rows) :
  readData r e = Some (Ok data) ->
  Forall (fun row => List.length row = 1%nat) data.
Proof.
  intros H.
  apply (ProcessLoop_invariant e
           (fun _ data => Forall (fun row => List.length row = 1%nat) data)
           (fun res => match res with
                       | Ok data => Forall (fun row => List.length row = 1%nat) data
                       | _ => True
                       end)) in H; [exact H| |constructor].
  clear. intros dec data HP. unfold turn.
  destruct (More dec) as [[] dec1]; cbn [negb]; [|exact HP].
  destruct (Decode dec1) as [d dec2].
  assert (W : match
                match bufio.ScanWords (Buffered dec2) with
                | (toks, None) =>
                    Next (NewDecoder (src dec2))
                      (data ++ List.map (fun t => [t]) toks)%list
                | (_, Some err) => Stop (Fatal ("reading standard input: " ++ err))
                end
              with
              | Stop (Ok data') => Forall (fun row => List.length row = 1%nat) data'
              | Stop _ => True
              | Next _ data' => Forall (fun row => List.length row = 1%nat) data'
              end).
  { destruct (bufio.ScanWords _) as [toks [err|]]; [exact I|].
    apply Forall_app. split; [exact HP|].
    apply Forall_forall. intros row Hin. apply in_map_iff in Hin.
    destruct Hin as (t & <- & _). reflexivity. }
  destruct d as [m| | |err]; try exact W; try exact I; try exact HP.
  destruct m as [|b|f|s|l|m]; try exact W; try exact I.
  - destruct e.
    + rewrite explode_spec. destruct (forallb is_object l); [|exact I].
      apply Forall_app. split; [exact HP|].
      apply Forall_forall. intros row Hin. apply in_map_iff in Hin.
      destruct Hin as (t & <- & _). reflexivity.
    + apply Forall_app. split; [exact HP | repeat constructor].
  - apply Forall_app. split; [exact HP | repeat constructor].
Qed.

(** X9. What [readData] can end with. It never panics; it ends the
    process only with the scanner's [token too long]; it returns
    [invalid piped data] only when arrays are exploded, and an error of the
    reader only when the reader ends with that error. *)
Theorem readData_outcomes (r : Reader) (e : bool) (res : result rows) :
  readData r e = Some res ->
  match res with
  | Ok _ => True
  | Err InvalidPipedData => e = true
  | Err (ReadError msg) => ending r = Broken msg
  | Err _ => True
  | Fatal msg => msg = "reading standard input: bufio.Scanner: token too long"
  | Panic _ => False
  end.
Proof.
  intros H.
  apply (ProcessLoop_invariant e
           (fun dec _ => ending (src dec) = ending r)
           (fun res => match res with
                       | Ok _ => True
                       | Err InvalidPipedData => e = true
                       | Err (ReadError msg) => ending r = Broken msg
                       | Err _ => True
                       | Fatal msg =>
                           msg = "reading standard input: bufio.Scanner: token too long"
                       | Panic _ => False
                       end)) in H; [exact H| |reflexivity].
  clear. intros dec data HP. unfold turn.
  pose proof (More_src dec) as M.
  destruct (More dec) as [[] dec1]; cbn [negb snd] in *; [|exact I].
  pose proof (Decode_src dec1) as D. pose proof (Decode_error dec1) as DE.
  destruct (Decode dec1) as [d dec2]. cbn [fst snd] in *.
  assert (W : match
                match bufio.ScanWords (Buffered dec2) with
                | (toks, None) =>
                    Next (NewDecoder (src dec2))
                      (data ++ List.map (fun t => [t]) toks)%list
                | (_, Some err) => Stop (Fatal ("reading standard input: " ++ err))
                end
              with
              | Stop (Fatal msg) =>
                  msg = "reading standard input: bufio.Scanner: token too long"
              | Stop _ => False
              | Next dec' _ => ending (src dec') = ending r
              end).
  { destruct (bufio.ScanWords _) as [toks [err|]] eqn:E.
    - apply scan_words_error in E. now subst err.
    - cbn. congruence. }
  destruct d as [m| | |err].
  - destruct m as [|b|f|s|l|m]; try exact I; try congruence.
    + destruct (bufio.ScanWords _) as [toks [err|]]; exact W.
    + destruct e; [|congruence].
      rewrite explode_spec. destruct (forallb is_object l); congruence.
  - destruct (bufio.ScanWords _) as [toks [err|]]; exact W.
  - exact I.
  - specialize (DE err eq_refl). destruct err; try exact I; try contradiction.
    congruence.
Qed.

End ReadLoop.

Section ReadRuns.

Context {rt : Runtime}.

Lemma peek_text (chunks : list string) (b : string) :
  (String.length (snd (fst (peek b chunks)))
   + String.length (text_of (snd (peek b chunks)))
   <= String.length b + String.length (text_of chunks))%nat.
Proof.
  revert b; induction chunks as [|ch chunks IH]; intros b; cbn [peek].
  - pose proof (skip_space_le b) as L.
    destruct (json.skip_space b); cbn [fst snd text_of fold_right] in *; lia.
  - pose proof (skip_space_le b) as L.
    destruct (json.skip_space b) as [|c tl]; cbn [fst snd] in *; [|lia].
    specialize (IH (b ++ ch)). rewrite length_app in IH.
    cbn [text_of fold_right]. fold (text_of chunks). rewrite length_app. lia.
Qed.

Lemma readValue_text (chunks : list string) (b : string) (e : read_end) :
  snd (fst (readValue b chunks e)) ++ text_of (snd (readValue b chunks e))
  = b ++ text_of chunks.
Proof.
  revert b; induction chunks as [|ch chunks IH]; intros b; cbn [readValue].
  - destruct (json.scan b) as [v rest| |]; try reflexivity.
    destruct (json.is_container v || negb (rest =? "")); [reflexivity|].
    destruct e; reflexivity.
  - assert (G : snd (fst (readValue (b ++ ch) chunks e))
                ++ text_of (snd (readValue (b ++ ch) chunks e))
                = b ++ text_of (ch :: chunks)).
    { rewrite IH. cbn [text_of fold_right]. apply append_assoc. }
    destruct (json.scan b) as [v rest| |]; try reflexivity; try exact G.
    destruct (json.is_container v || negb (rest =? "")); [reflexivity | exact G].
Qed.


Lemma held_text (dec : Decoder) :
  held dec
  = (String.length (buf dec) + String.length (text_of (pending (src dec))))%nat.
Proof. reflexivity. Qed.

Lemma held_restart (dec : Decoder) : (held (NewDecoder (src dec)) <= held dec)%nat.
Proof. rewrite !held_text. cbn [NewDecoder buf src String.length]. lia. Qed.

Lemma held_buffer (dec : Decoder) : (String.length (buf dec) <= held dec)%nat.
Proof. rewrite held_text. lia. Qed.

Lemma More_held (dec : Decoder) : (held (snd (More dec)) <= held dec)%nat.
Proof.
  rewrite !held_text. unfold More. pose proof (peek_text (pending (src dec)) (buf dec)) as P.
  destruct (peek _ _) as [[c b] chunks]. cbn [fst snd] in P.
  destruct c; cbn [snd buf src pending]; exact P.
Qed.

Lemma Decode_held (dec : Decoder) : (held (snd (Decode dec)) <= held dec)%nat.
Proof.
  rewrite !held_text. unfold Decode.
  pose proof (readValue_text (pending (src dec)) (buf dec) (ending (src dec))) as T.
  pose proof (@readValue_size (buf dec) (pending (src dec)) (ending (src dec))) as R.
  destruct (readValue _ _ _) as [[p b] chunks]. cbn [fst snd] in T.
  specialize (R p b chunks eq_refl). destruct R as (_ & _ & R).
  apply (f_equal String.length) in T. rewrite !length_app in T.
  destruct p as [v rest| |].
  - specialize (R v rest eq_refl).
    destruct (interp v); cbn [snd buf src pending]; lia.
  - cbn [snd buf src pending]. lia.
  - destruct (ending (src dec)); cbn [snd buf src pending]; lia.
Qed.

(** X10. On an input of less than 64 KiB [readData] never ends the
    process: the scanner cannot meet a word that is too long. *)
Theorem readData_short_input_never_exits (r : Reader) (e : bool) (msg : string) :
  (String.length (text_of (pending r)) < bufio.MaxScanTokenSize)%nat ->
  readData r e <> Some (Fatal msg).
Proof.
  intros Hs H.
  apply (ProcessLoop_invariant e
           (fun dec _ => (held dec < bufio.MaxScanTokenSize)%nat)
           (fun res => match res with Fatal _ => False | _ => True end)) in H;
    [exact H| |exact Hs].
  clear. intros dec data HP. unfold turn.
  pose proof (More_held dec) as M.
  destruct (More dec) as [[] dec1]; cbn [negb snd] in *; [|exact I].
  pose proof (Decode_held dec1) as D.
  destruct (Decode dec1) as [d dec2]. cbn [snd] in *.
  assert (W : match
                match bufio.ScanWords (Buffered dec2) with
                | (toks, None) =>
                    Next (NewDecoder (src dec2))
                      (data ++ List.map (fun t => [t]) toks)%list
                | (_, Some err) => Stop (Fatal ("reading standard input: " ++ err))
                end
              with
              | Stop _ => False
              | Next dec' _ => (held dec' < bufio.MaxScanTokenSize)%nat
              end).
  { pose proof (scan_words_short (String.length (Buffered dec2)) (Buffered dec2)) as S.
    unfold bufio.ScanWords. destruct (bufio.scan_words _ _) as [toks err].
    cbn [snd] in S. rewrite S.
    - pose proof (held_restart dec2). lia.
    - pose proof (held_buffer dec2). unfold Buffered. lia. }
  destruct d as [m| | |err]; try exact I.
  - destruct m as [|b|f|s|l|m]; try exact I; try lia.
    + destruct (bufio.ScanWords _) as [toks [err|]]; exact W.
    + destruct e; [|lia]. rewrite explode_spec.
      destruct (forallb is_object l); [lia | exact I].
  - destruct (bufio.ScanWords _) as [toks [err|]]; exact W.
Qed.

(** X11. The loop of [readData], restarts included, ends: there is a
    result after at most one turn for each byte and chunk of the input, and
    more turns allowed change nothing. *)
Theorem readData_ends (r : Reader) (e : bool) :
  exists res,
    readData r e = Some res
    /\ forall fuel, (reader_size r < fuel)%nat ->
                    ProcessLoop fuel (NewDecoder r) e [] = Some res.
Proof.
  destruct (@ProcessLoop_total rt (S (reader_size r)) (NewDecoder r) e []) as [res H].
  { unfold decoder_size, NewDecoder. cbn. lia. }
  exists res. split; [exact H|]. intros fuel Hf.
  rewrite <- H. apply ProcessLoop_fuel; unfold decoder_size, NewDecoder; cbn; lia.
Qed.

(** X12. When the decoder yields an object, or an array while arrays are
    not exploded, one row with one field, the JSON text of the value as
    [json.Marshal] writes it, is added after the rows so far, and it stays
    among the first rows of what [readData] returns. *)
Theorem object_gives_one_row (r : Reader) (e : bool)
        (dec dec1 dec2 : Decoder) (data : rows) (m : value) :
  at_loop_head r e dec data ->
  More dec = (true, dec1) ->
  Decode dec1 = (DValue m, dec2) ->
  is_object m = true \/ (e = false /\ exists raw, m = Array raw) ->
  at_loop_head r e dec2 (data ++ [[Marshal m]])%list
  /\ (forall final, readData r e = Some (Ok final) ->
                    exists more, final = ((data ++ [[Marshal m]]) ++ more)%list).
Proof.
  intros Hh HM HD Hm.
  assert (T : turn dec e data = Next dec2 (data ++ [[Marshal m]])%list).
  { rewrite (@turn_decoded rt _ _ _ _ e data HM HD).
    destruct Hm as [Hm | (-> & raw & ->)]; [|reflexivity].
    destruct m; try discriminate Hm. reflexivity. }
  assert (Hh' : at_loop_head r e dec2 (data ++ [[Marshal m]])%list)
    by exact (head_next Hh T).
  split; [exact Hh'|]. intros final Hf. exact (at_loop_head_kept Hh' Hf).
Qed.

(** X13. When [Decode] fails with an error that is neither a syntax error
    nor [io.EOF] (the input ends inside a value, a number does not fit, the
    reader fails), [readData] and [InputToCommands] return that error and
    none of the rows read so far. *)
Theorem decoder_error_is_returned (r : Reader) (e : bool) (args : list string)
        (dec dec1 dec2 : Decoder) (data : rows) (err : error) :
  at_loop_head r e dec data ->
  More dec = (true, dec1) ->
  Decode dec1 = (DError err, dec2) ->
  readData r e = Some (Err err)
  /\ InputToCommands r args e = Some (Err err).
Proof.
  intros Hh HM HD.
  assert (R : readData r e = Some (Err err)).
  { apply (run_stops Hh). now rewrite (@turn_decoded rt _ _ _ _ e data HM HD). }
  split; [exact R|]. unfold InputToCommands. now rewrite R.
Qed.

Lemma no_value_no_rows (chunks : list string) (e : bool) :
  match json.skip_space (text_of chunks) with
  | EmptyString => True
  | String c _ => c = "]"%char \/ c = "}"%char
  end ->
  readData (chunked chunks) e = Some (Ok []).
Proof.
  intros H.
  assert (M : fst (More (NewDecoder (chunked chunks))) = false).
  { unfold More. cbn [NewDecoder chunked buf src pending].
    pose proof (peek_first chunks "") as P. cbn [append] in P.
    destruct (peek "" chunks) as [[c b] chunks']. cbn [fst] in P.
    destruct (json.skip_space (text_of chunks)) as [|c' tl]; subst c;
      [reflexivity|].
    destruct H as [-> | ->]; reflexivity. }
  unfold readData. cbn [ProcessLoop]. unfold turn.
  destruct (More (NewDecoder (chunked chunks))) as [more dec1].
  cbn [fst] in M. subst more. reflexivity.
Qed.

(** X14. An input that is empty or white space only, or whose first byte
    after white space is a closing bracket or brace, gives no rows,
    whatever follows and in whatever chunks it arrives: [dec.More()]
    answers false, and [InputToCommands] returns the arguments as they
    are. *)
Theorem input_that_stops_reading (chunks : list string) (e : bool)
        (args : list string) :
  match json.skip_space (text_of chunks) with
  | EmptyString => True
  | String c _ => c = "]"%char \/ c = "}"%char
  end ->
  readData (chunked chunks) e = Some (Ok [])
  /\ InputToCommands (chunked chunks) args e = Some (Ok [args]).
Proof.
  intros H. pose proof (no_value_no_rows chunks e H) as R.
  split; [exact R|]. unfold InputToCommands. now rewrite R.
Qed.

(** X15. When the first value of an input read in one chunk is a syntax
    error, every word of the input becomes a row, JSON text that follows
    included: the rows are the words of the whole input, in order. *)
Theorem text_gives_words (s : string) (e : bool) (c : ascii) (tl : string)
        (toks : list string) :
  json.skip_space s = String c tl ->
  c <> "]"%char -> c <> "}"%char ->
  json.scan (String c tl) = json.PSyntax ->
  bufio.ScanWords (String c tl) = (toks, None) ->
  readData (chunked [s]) e = Some (Ok (List.map (fun t => [t]) toks)).
Proof.
  intros Hs Hb1 Hb2 Hscan Hw.
  assert (T : turn (NewDecoder (chunked [s])) e []
              = Next (NewDecoder (chunked [])) (List.map (fun t => [t]) toks)).
  { unfold turn, More, Decode.
    cbn [NewDecoder chunked buf src pending ending peek json.skip_space append].
    rewrite Hs.
    assert (E1 : Ascii.eqb c "]" = false) by now apply Ascii.eqb_neq.
    assert (E2 : Ascii.eqb c "}" = false) by now apply Ascii.eqb_neq.
    rewrite E1, E2. cbn [negb andb buf src pending ending readValue].
    rewrite Hscan. cbn [Buffered buf]. rewrite Hw. reflexivity. }
  unfold readData. cbn [reader_size chunks_size chunked pending fold_right ProcessLoop].
  change {| pending := [s]; ending := EOF |} with (chunked [s]).
  rewrite T. reflexivity.
Qed.

End ReadRuns.

(** ** Queries *)

Lemma Split_from_plain (cur s : string) :
  indexByte "." s = None -> strings.Split_from cur s "." = [cur ++ s].
Proof.
  revert cur; induction s as [|c s IH]; intros cur H.
  - cbn. now rewrite append_empty.
  - cbn [indexByte] in H. cbn [strings.Split_from].
    rewrite (Ascii.eqb_sym c "."). destruct (Ascii.eqb "." c); [discriminate|].
    destruct (indexByte "." s) eqn:E; [discriminate|].
    rewrite (IH _ eq_refl). rewrite append_assoc. reflexivity.
Qed.

Lemma Split_from_dot (cur a b : string) :
  strings.Split_from cur (a ++ String "." b) "."
  = (strings.Split_from cur a "." ++ strings.Split b ".")%list.
Proof.
  revert cur; induction a as [|c a IH]; intros cur.
  - reflexivity.
  - cbn [append strings.Split_from].
    destruct (Ascii.eqb c "."); [|apply IH].
    rewrite IH. reflexivity.
Qed.

Section Queries.

Context {rt : Runtime}.

Lemma value_induction (P : value -> Prop) :
  P Nil -> (forall b, P (Bool b)) -> (forall f, P (Float f)) ->
  (forall s, P (Str s)) ->
  (forall l, Forall P l -> P (Array l)) ->
  (forall m, Forall (fun kv => P (snd kv)) m -> P (Map m)) ->
  forall v, P v.
Proof.
  intros HN HB HF HS HA HM.
  fix IH 1. intros [|b|f|s|l|m].
  - exact HN.
  - apply HB.
  - apply HF.
  - apply HS.
  - apply HA. induction l as [|x l IHl]; constructor; [apply IH | exact IHl].
  - apply HM. induction m as [|[k x] m IHm]; constructor; [apply IH | exact IHm].
Qed.

Lemma Search_array (l : list value) (target : string) (hierarchy : list string) :
  Search (Array l) (target :: hierarchy)
  = match collect (target :: hierarchy) l with
    | [] => None
    | tmpArray => Some (Array tmpArray)
    end.
Proof.
  cbn [Search].
  assert (E : (fix each (l0 : list value) : list value :=
                 match l0 with
                 | [] => []
                 | val :: l' =>
                     match Search val (target :: hierarchy) with
                     | Some Nil | None => each l'
                     | Some res => res :: each l'
                     end
                 end) l = collect (target :: hierarchy) l).
  { induction l as [|val l IHl]; [reflexivity|].
    unfold collect. cbn [flat_map]. fold (collect (target :: hierarchy) l).
    rewrite IHl.
    destruct (Search val (target :: hierarchy)) as [[| | | | |]|]; reflexivity. }
  rewrite E. destruct (collect (target :: hierarchy) l); reflexivity.
Qed.

Lemma map_lookup_in (m : list (string * value)) (k : string) (v : value) :
  map_lookup k m = Some v -> exists k', In (k', v) m.
Proof.
  induction m as [|[k' v'] m IH]; [discriminate|]. cbn [map_lookup].
  destruct (k =? k').
  - intros H; inversion H; subst. exists k'. now left.
  - intros H. destruct (IH H) as [k'' Hin]. exists k''. now right.
Qed.

(** [Search] along a hierarchy in two parts is [Search] along the first
    and then along the second. *)
Lemma Search_app (v : value) :
  forall h1 h2,
    Search v (h1 ++ h2)
    = match Search v h1 with
      | Some x => Search x h2
      | None => None
      end.
Proof.
  induction v as [|b|f|s|l IHl|m IHm] using value_induction;
    intros [|k h1] h2; try reflexivity.
  - (* an array *)
    cbn [app]. destruct h2 as [|k2 h2].
    { rewrite app_nil_r.
      destruct (Search (Array l) (k :: h1)) as [x|]; [destruct x|]; reflexivity. }
    rewrite !Search_array.
    assert (C : collect (k :: h1 ++ k2 :: h2) l
                = collect (k2 :: h2) (collect (k :: h1) l)).
    { induction l as [|val l IH]; [reflexivity|].
      inversion IHl as [|? ? Hv Hl]; subst.
      unfold collect at 1 3. cbn [flat_map].
      fold (collect (k :: h1 ++ k2 :: h2) l). fold (collect (k :: h1) l).
      rewrite (IH Hl).
      change (k :: h1 ++ k2 :: h2) with ((k :: h1) ++ k2 :: h2)%list.
      rewrite (Hv (k :: h1) (k2 :: h2)).
      destruct (Search val (k :: h1)) as [x|]; [|reflexivity].
      destruct x; try reflexivity;
        unfold collect at 2; cbn [app flat_map]; fold (collect (k2 :: h2));
        match goal with
        | |- context [Search ?x (k2 :: h2)] =>
            destruct (Search x (k2 :: h2)) as [[| | | | |]|]
        end; reflexivity. }
    rewrite C.
    destruct (collect (k :: h1) l) as [|x tmp]; [reflexivity|].
    rewrite Search_array. reflexivity.
  - (* an object *)
    cbn [app]. rewrite !Search_member.
    destruct (map_lookup k m) as [x|] eqn:E; [|reflexivity].
    destruct (map_lookup_in m k x E) as [k' Hin].
    rewrite Forall_forall in IHm. exact (IHm (k', x) Hin h1 h2).
Qed.

(** X16. For a field that holds a JSON object and a path without dots,
    [jsonQuery] answers the member of that name as [fmt.Sprint] prints it
    (a string without its quotes). *)
Theorem jsonQuery_member (data key : string) (m : list (string * value)) (v : value) :
  ParseJSON data = Some (Map m) ->
  indexByte "." key = None ->
  map_lookup key m = Some v ->
  jsonQuery data key = Sprint v.
Proof.
  intros HP Hk Hl. unfold jsonQuery, Path, strings.Split. rewrite HP.
  rewrite Split_from_plain by exact Hk. cbn [append].
  rewrite Search_member, Hl. now destruct v.
Qed.

(** X17. A dotted path is followed part by part: the query [first.rest]
    is the query [rest] in what [first] selects, through objects and
    arrays alike. *)
Theorem jsonQuery_dotted_path (data first rest : string) (v : value) :
  ParseJSON data = Some v ->
  jsonQuery data (first ++ String "." rest)
  = Sprint (Data (match Path v first with
                  | Some x => Path x rest
                  | None => None
                  end)).
Proof.
  intros HP. unfold jsonQuery, Path, strings.Split. rewrite HP.
  rewrite Split_from_dot. rewrite Search_app. reflexivity.
Qed.

End Queries.

(** ** The caller: [execute] *)

Section Caller.

Context {rt : Runtime}.
Variable World : Type.
Variable command_error : Type.
Variable configure : list string -> World -> option bool * World.
Variable Execute : list string -> World -> option command_error * World.

Lemma run_commands_app (m1 m2 : rows) (w : World) :
  run_commands Execute (m1 ++ m2)%list w
  = match run_commands Execute m1 w with
    | (Done, w') => run_commands Execute m2 w'
    | stopped => stopped
    end.
Proof.
  revert w; induction m1 as [|cmd m1 IH]; intros w; [reflexivity|].
  cbn [app run_commands]. destruct (Execute cmd w) as [[err|] w'];
    [reflexivity | apply IH].
Qed.

(** X18. [execute] runs the commands of the rows in order and stops at
    the first that fails: its error is returned and no later row is
    run. *)
Theorem execute_stops_at_first_failure (explode : bool) (args : list string)
        (r : Reader) (m1 m2 : rows) (cmd : list string)
        (w w0 w1 w2 : World) (err : command_error) :
  configure args w = (Some explode, w0) ->
  InputToCommands r args explode = Some (Ok (m1 ++ cmd :: m2)%list) ->
  run_commands Execute m1 w0 = (Done, w1) ->
  Execute cmd w1 = (Some err, w2) ->
  execute configure Execute args (Some r) w = Some (CommandFailed err, w2).
Proof.
  intros HC HI H1 H2. unfold execute. rewrite HC, HI.
  rewrite run_commands_app, H1. cbn [run_commands]. now rewrite H2.
Qed.

(** X19. [execute] reads the whole input before it runs anything: when
    reading fails at any turn of the loop, [execute] returns that error and
    has run no command, not even for the rows read before. *)
Theorem execute_reads_all_before_running (explode : bool) (args : list string)
        (r : Reader) (dec : Decoder) (data : rows) (x : error) (w w0 : World) :
  configure args w = (Some explode, w0) ->
  at_loop_head r explode dec data ->
  turn dec explode data = Stop (Err x) ->
  execute configure Execute args (Some r) w = Some (ReadFailed x, w0).
Proof.
  intros HC Hh Ht. unfold execute, InputToCommands.
  rewrite HC, (run_stops Hh Ht). reflexivity.
Qed.

(** X20. Piping an input that is empty or white space only is the same
    as piping nothing: the command runs once with the arguments as they
    are. *)
Theorem execute_blank_input_is_no_input (args : list string)
        (chunks : list string) (w : World) :
  json.skip_space (text_of chunks) = "" ->
  execute configure Execute args (Some (chunked chunks)) w
  = execute configure Execute args None w.
Proof.
  intros H. unfold execute, InputToCommands.
  destruct (configure args w) as [[explode|] w0]; [|reflexivity].
  assert (R : readData (chunked chunks) explode = Some (Ok [])).
  { apply no_value_no_rows. now rewrite H. }
  rewrite R. reflexivity.
Qed.

End Caller.

(** ** Instances

    Each property above that has a hypothesis, at an input that meets it. *)

Lemma transform_plain_text_witness :
  transform (rt:=sample_runtime) ["c"] "a b" = Ok "a b".
Proof.
  apply (@transform_plain_text sample_runtime ["c"] "a b"). reflexivity.
Defined.

Lemma transform_braced_marker_witness :
  transform (rt:=sample_runtime) ["c"; "d"] "a ${2} b"
  = (v <- dataLookup (rt:=sample_runtime) ["c"; "d"] "2" ;;
     r <- transform (rt:=sample_runtime) ["c"; "d"] " b" ;;
     Ok ("a " ++ v ++ r)).
Proof.
  apply (@transform_braced_marker sample_runtime ["c"; "d"] "a " "2" " b");
    [reflexivity | discriminate | reflexivity].
Defined.

Lemma transform_field_verbatim_witness :
  transform (rt:=sample_runtime) ["${1}"; "d"] "x ${1} y ${2}"
  = Ok "x ${1} y d".
Proof.
  apply (@transform_field_verbatim sample_runtime
           ["${1}"; "d"] "x " "1" " y ${2}" "${1}" 1);
    [reflexivity | reflexivity | lia | reflexivity].
Defined.

Lemma transform_field_query_witness :
  transform (rt:=sample_runtime) ["c"; js "{'a':'d'}"] "x ${2.a}" = Ok "x d".
Proof.
  apply (@transform_field_query sample_runtime
           ["c"; js "{'a':'d'}"] "x " "2" "a" "" (js "{'a':'d'}") 2);
    [reflexivity | reflexivity | discriminate | reflexivity | lia | reflexivity].
Defined.

Lemma transform_position_out_of_range_witness :
  transform (rt:=sample_runtime) ["c"] "a ${7} b ${-1.x}"
  = Ok "a <nil> b <nil>".
Proof.
  apply (@transform_position_out_of_range sample_runtime
           ["c"] "a " "7" " b ${-1.x}");
    [reflexivity | discriminate | reflexivity | right; vm_compute; reflexivity].
Defined.

Lemma transform_name_queries_first_field_witness :
  transform (rt:=sample_runtime) [js "{'user':{'id':'7'}}"; "d"] "id=${user.id}"
  = Ok "id=7".
Proof.
  apply (@transform_name_queries_first_field sample_runtime
           (js "{'user':{'id':'7'}}") ["d"] "id=" "" "u" "ser.id");
    [reflexivity | reflexivity | discriminate | discriminate | reflexivity].
Defined.

Lemma readData_rows_have_one_field_witness :
  Forall (fun row : list string => List.length row = 1%nat)
         [["c"]; [js "{'a':1}"]; ["d"]].
Proof.
  apply (@readData_rows_have_one_field sample_runtime
           (NewBufferString (js "c {'a':1} d")) true).
  vm_compute. reflexivity.
Defined.

Lemma readData_outcomes_witness :
  readData (rt:=sample_runtime)
    {| pending := ["{"]; ending := Broken "connection reset" |} true
  = Some (Err (ReadError "connection reset"))
  /\ ending {| pending := ["{"]; ending := Broken "connection reset" |}
     = Broken "connection reset".
Proof.
  split; [reflexivity|].
  apply (@readData_outcomes sample_runtime
           {| pending := ["{"]; ending := Broken "connection reset" |} true
           (Err (ReadError "connection reset"))).
  reflexivity.
Defined.

Lemma readData_short_input_never_exits_witness :
  readData (rt:=sample_runtime) (NewBufferString "c d") false
  <> Some (Fatal "reading standard input: bufio.Scanner: token too long").
Proof.
  apply (@readData_short_input_never_exits sample_runtime
           (NewBufferString "c d") false).
  apply Nat.ltb_lt. vm_compute. reflexivity.
Defined.

Lemma object_gives_one_row_witness :
  at_loop_head (rt:=sample_runtime) (NewBufferString (js "{'b':1,'a':'c'}")) true
    {| buf := ""; src := {| pending := []; ending := EOF |} |}
    [[js "{'a':'c','b':1}"]]
  /\ (forall final,
         readData (rt:=sample_runtime)
           (NewBufferString (js "{'b':1,'a':'c'}")) true = Some (Ok final) ->
         exists more, final = ([[js "{'a':'c','b':1}"]] ++ more)%list).
Proof.
  exact (@object_gives_one_row sample_runtime
           (NewBufferString (js "{'b':1,'a':'c'}")) true
           _ _ _ [] (Map [("a", Str "c"); ("b", Float (rt:=sample_runtime) "1")])
           (head_first _ _) eq_refl eq_refl (or_introl eq_refl)).
Defined.

Lemma decoder_error_is_returned_witness :
  readData (rt:=sample_runtime) (NewBufferString (js "{'a':1} {'b':")) true
  = Some (Err UnexpectedEOF)
  /\ InputToCommands (rt:=sample_runtime)
       (NewBufferString (js "{'a':1} {'b':")) ["x ${1}"] true
     = Some (Err UnexpectedEOF).
Proof.
  eapply (@decoder_error_is_returned sample_runtime
            (NewBufferString (js "{'a':1} {'b':")) true ["x ${1}"]
            {| buf := js " {'b':"; src := {| pending := []; ending := EOF |} |}
            _ _ [[js "{'a':1}"]] UnexpectedEOF).
  - eapply head_next; [apply head_first | reflexivity].
  - reflexivity.
  - reflexivity.
Defined.

Lemma input_that_stops_reading_witness :
  readData (rt:=sample_runtime) (chunked [" "; js "] {'a':1}"]) true = Some (Ok [])
  /\ InputToCommands (rt:=sample_runtime)
       (chunked [" "; js "] {'a':1}"]) ["x ${1}"] true
     = Some (Ok [["x ${1}"]]).
Proof.
  apply (@input_that_stops_reading sample_runtime [" "; js "] {'a':1}"] true ["x ${1}"]).
  vm_compute. left. reflexivity.
Defined.

Lemma text_gives_words_witness :
  readData (rt:=sample_runtime) (chunked [js " c {'a':1}"]) true
  = Some (Ok [["c"]; [js "{'a':1}"]]).
Proof.
  apply (@text_gives_words sample_runtime (js " c {'a':1}") true
           "c" (js " {'a':1}") ["c"; js "{'a':1}"]);
    [reflexivity | discriminate | discriminate | reflexivity | reflexivity].
Defined.

Lemma jsonQuery_member_witness :
  jsonQuery (rt:=sample_runtime) (js "{'a':'c','b':[1,2]}") "b" = "[1 2]".
Proof.
  apply (@jsonQuery_member sample_runtime (js "{'a':'c','b':[1,2]}") "b"
           [("a", Str "c"); ("b", Array [Float (rt:=sample_runtime) "1"; Float (rt:=sample_runtime) "2"])]
           (Array [Float (rt:=sample_runtime) "1"; Float (rt:=sample_runtime) "2"]));
    reflexivity.
Defined.

Lemma jsonQuery_dotted_path_witness :
  jsonQuery (rt:=sample_runtime) (js "{'a':[{'b':'c'},{'b':'d'}]}") "a.b" = "[c d]".
Proof.
  exact (@jsonQuery_dotted_path sample_runtime
           (js "{'a':[{'b':'c'},{'b':'d'}]}") "a" "b"
           (Map [("a", Array [Map [("b", Str "c")]; Map [("b", Str "d")]])])
           eq_refl).
Defined.

Lemma execute_stops_at_first_failure_witness :
  execute (rt:=sample_runtime) sample_configure sample_Execute
    ["get"; "${1}"] (Some (NewBufferString "a fail b")) []
  = Some (CommandFailed "failed", [["get"; "a"]; ["get"; "fail"]]).
Proof.
  apply (@execute_stops_at_first_failure sample_runtime _ _
           sample_configure sample_Execute true ["get"; "${1}"]
           (NewBufferString "a fail b")
           [["get"; "a"]] [["get"; "b"]] ["get"; "fail"]
           [] [] [["get"; "a"]] [["get"; "a"]; ["get"; "fail"]] "failed");
    reflexivity.
Defined.

Lemma execute_reads_all_before_running_witness :
  execute (rt:=sample_runtime) sample_configure sample_Execute
    ["get"; "${1}"] (Some (NewBufferString (js "{'a':1} 7"))) []
  = Some (ReadFailed (UnexpectedType "float64" "7"), []).
Proof.
  eapply (@execute_reads_all_before_running sample_runtime _ _
            sample_configure sample_Execute true ["get"; "${1}"]
            (NewBufferString (js "{'a':1} 7"))
            {| buf := " 7"; src := {| pending := []; ending := EOF |} |}
            [[js "{'a':1}"]]
            (UnexpectedType "float64" "7") [] []).
  - reflexivity.
  - eapply head_next; [apply head_first | reflexivity].
  - reflexivity.
Defined.

Lemma execute_blank_input_is_no_input_witness :
  execute (rt:=sample_runtime) sample_configure sample_Execute
    ["get"; "x"] (Some (chunked [" "; newline])) []
  = execute (rt:=sample_runtime) sample_configure sample_Execute
      ["get"; "x"] None [].
Proof.
  apply (@execute_blank_input_is_no_input sample_runtime _ _
           sample_configure sample_Execute ["get"; "x"] [" "; newline] []).
  reflexivity.
Defined.
